(** * Summarizer and price ticker: a shallow embedding of the page scripts

    The development follows the two scripts of the repository:
    the transcript summarizer (URL validation, video-id extraction, the
    transcript fallback chain, the metadata fetch, the extractive
    summarizer and the page driver [summarizeContent]) and the price
    ticker of [app.js] (the bounded history behind the chart).

    Modelling conventions.
    - A JavaScript string is a list of code units.  The model keeps the
      code units below 256 (type [ascii]); [length] is the JavaScript
      [.length].
    - A regular expression is embedded as a backtracking matcher in
      continuation-passing style, alternatives tried in the order the
      engine tries them.
    - [async] functions are computations in a state-and-exception monad
      over the page and the log of requests; the network, the XML parser
      and the JSON parser of the browser are parameters. *)

From Stdlib Require Import Ascii String.
From Stdlib Require Import List Bool Arith NArith ZArith Lia.
From Stdlib Require Import Sorting.Sorted Sorting.Permutation.
Import ListNotations.

#[local] Set Warnings "-register-all".

Set Implicit Arguments.

(** ** JavaScript strings *)

Module JSString.

Definition jsstring := list ascii.

(** [str "..."] is the literal with the given characters. *)
Definition str (s : string) : jsstring := list_ascii_of_string s.

Definition code (c : ascii) : N := N_of_ascii c.

Definition inRange (lo hi : N) (c : ascii) : bool :=
  (lo <=? code c)%N && (code c <=? hi)%N.

Definition isDigit : ascii -> bool := inRange 48 57.
Definition isUpper : ascii -> bool := inRange 65 90.
Definition isLower : ascii -> bool := inRange 97 122.

(** The class [\w], that is [[A-Za-z0-9_]]. *)
Definition isWordChar (c : ascii) : bool :=
  isUpper c || isLower c || isDigit c || Ascii.eqb c "_".

(** The class [[a-zA-Z0-9_-]] of the video-id patterns. *)
Definition isIdChar (c : ascii) : bool :=
  isLower c || isUpper c || isDigit c || Ascii.eqb c "_" || Ascii.eqb c "-".

(** The class [\s], which is also what [trim] strips: TAB, LF, VT, FF,
    CR, SPACE and NBSP are the members below 256. *)
Definition isSpace (c : ascii) : bool :=
  inRange 9 13 c || (code c =? 32)%N || (code c =? 160)%N.

(** Line terminators below 256: LF and CR (what [.] does not match). *)
Definition isLineTerminator (c : ascii) : bool :=
  (code c =? 10)%N || (code c =? 13)%N.

(** [toLowerCase] on one code unit: A-Z, and the Latin-1 capitals
    U+00C0..U+00DE except the multiplication sign U+00D7. *)
Definition lowerChar (c : ascii) : ascii :=
  if isUpper c || (inRange 192 222 c && negb (code c =? 215)%N)
  then ascii_of_N (code c + 32)
  else c.

Definition toLowerCase (s : jsstring) : jsstring := map lowerChar s.

Fixpoint dropWhile (p : ascii -> bool) (s : jsstring) : jsstring :=
  match s with
  | [] => []
  | c :: r => if p c then dropWhile p r else s
  end.

Definition trimStart (s : jsstring) : jsstring := dropWhile isSpace s.
Definition trimEnd (s : jsstring) : jsstring := rev (dropWhile isSpace (rev s)).
Definition trim (s : jsstring) : jsstring := trimEnd (trimStart s).

Fixpoint eqb (a b : jsstring) : bool :=
  match a, b with
  | [], [] => true
  | x :: a', y :: b' => Ascii.eqb x y && eqb a' b'
  | _, _ => false
  end.

(** [s.split(/[...]+/)] for a one-character class [p]: the pieces between
    maximal runs of separator characters.  The head of the result is the
    piece that starts at the current position; the empty string gives one
    empty piece. *)
Fixpoint splitRuns (p : ascii -> bool) (s : jsstring) : list jsstring :=
  match s with
  | [] => [[]]
  | c :: r =>
      if p c then
        match r with
        | c' :: _ => if p c' then splitRuns p r else [] :: splitRuns p r
        | [] => [[]; []]
        end
      else
        match splitRuns p r with
        | w :: ws => (c :: w) :: ws
        | [] => [[c]]
        end
  end.

(** [pieces.join(sep)] *)
Fixpoint join (sep : jsstring) (pieces : list jsstring) : jsstring :=
  match pieces with
  | [] => []
  | [w] => w
  | w :: ws => w ++ sep ++ join sep ws
  end.

End JSString.
Import JSString.

(** ** Regular expressions as backtracking matchers *)

Module Regex.

Section Matchers.
Variable R : Type.

(** A matcher takes the continuation that matches the rest of the
    pattern, and the input at the current position. *)
Definition Matcher := (jsstring -> option R) -> jsstring -> option R.

(** A literal sequence of characters. *)
Fixpoint lit (t : jsstring) (k : jsstring -> option R) (s : jsstring) : option R :=
  match t with
  | [] => k s
  | a :: t' =>
      match s with
      | c :: s' => if Ascii.eqb a c then lit t' k s' else None
      | [] => None
      end
  end.

(** One character of a class. *)
Definition cls (p : ascii -> bool) : Matcher := fun k s =>
  match s with
  | c :: s' => if p c then k s' else None
  | [] => None
  end.

(** [(m)?], greedy: first with [m], then without. *)
Definition opt (m : Matcher) : Matcher := fun k s =>
  match m k s with
  | Some x => Some x
  | None => k s
  end.

(** [m1|m2], left alternative first. *)
Definition alt (m1 m2 : Matcher) : Matcher := fun k s =>
  match m1 k s with
  | Some x => Some x
  | None => m2 k s
  end.

(** [c+] for a class [c], greedy with backtracking. *)
Fixpoint starCls (p : ascii -> bool) (k : jsstring -> option R) (s : jsstring) : option R :=
  match s with
  | c :: s' =>
      if p c then
        match starCls p k s' with
        | Some x => Some x
        | None => k s
        end
      else k s
  | [] => k []
  end.

Definition plusCls (p : ascii -> bool) : Matcher := fun k s =>
  cls p (starCls p k) s.

(** An unanchored pattern is tried at every position, leftmost first,
    the end of the input included. *)
Fixpoint search (m : jsstring -> option R) (s : jsstring) : option R :=
  match m s with
  | Some x => Some x
  | None =>
      match s with
      | [] => None
      | _ :: s' => search m s'
      end
  end.
End Matchers.

(** [(c{n})] at the end of a pattern: the next [n] characters, all of
    class [p]; the value is the text of the group. *)
Fixpoint group (p : ascii -> bool) (n : nat) (s : jsstring) : option jsstring :=
  match n with
  | O => Some []
  | S n' =>
      match s with
      | c :: s' =>
          if p c then
            match group p n' s' with
            | Some g => Some (c :: g)
            | None => None
            end
          else None
      | [] => None
      end
  end.

(** Case-insensitive comparison of the [i] flag, for ASCII literals. *)
Definition foldCase (c : ascii) : ascii :=
  if isUpper c then ascii_of_N (code c + 32) else c.

Definition clsCI (a : ascii) : ascii -> bool :=
  fun c => Ascii.eqb (foldCase a) (foldCase c).

Fixpoint litCI (R : Type) (t : jsstring) (k : jsstring -> option R) (s : jsstring) : option R :=
  match t with
  | [] => k s
  | a :: t' =>
      match s with
      | c :: s' => if clsCI a c then litCI t' k s' else None
      | [] => None
      end
  end.

Definition isSome (A : Type) (o : option A) : bool :=
  match o with Some _ => true | None => false end.

End Regex.
Import Regex.

(** ** URL validation and parsing *)

(** [/^https?:\/\/(www\.)?(youtube\.com\/watch\?v=|youtu\.be\/)([a-zA-Z0-9_-]{11})/] *)
Definition validPattern1 (url : jsstring) : option jsstring :=
  lit (str "http") (opt (lit (str "s")) (lit (str "://")
    (opt (lit (str "www."))
      (alt (lit (str "youtube.com/watch?v=")) (lit (str "youtu.be/"))
        (group isIdChar 11))))) url.

(** [/^https?:\/\/(www\.)?youtube\.com\/embed\/([a-zA-Z0-9_-]{11})/] *)
Definition validPattern2 (url : jsstring) : option jsstring :=
  lit (str "http") (opt (lit (str "s")) (lit (str "://")
    (opt (lit (str "www."))
      (lit (str "youtube.com/embed/") (group isIdChar 11))))) url.

Definition isValidYouTubeURL (url : jsstring) : bool :=
  existsb (fun pattern => isSome (pattern url)) [validPattern1; validPattern2].

(** [/^https?:\/\/.+\.(rss|xml|feed)/i], [/feed/i] and [/podcast/i] *)
Definition podcastPattern1 (url : jsstring) : option unit :=
  litCI (str "http") (opt (cls (clsCI "s")) (litCI (str "://")
    (plusCls (fun c => negb (isLineTerminator c))
      (lit (str ".")
        (alt (litCI (str "rss")) (alt (litCI (str "xml")) (litCI (str "feed")))
          (fun _ => Some tt)))))) url.

Definition isValidPodcastURL (url : jsstring) : bool :=
  isSome (podcastPattern1 url)
  || isSome (search (litCI (str "feed") (fun _ => Some tt)) url)
  || isSome (search (litCI (str "podcast") (fun _ => Some tt)) url).

(** [/[?&]v=([a-zA-Z0-9_-]{11})/] *)
Definition idPattern1 : jsstring -> option jsstring :=
  cls (fun c => Ascii.eqb c "?" || Ascii.eqb c "&")
    (lit (str "v=") (group isIdChar 11)).

(** [/youtu\.be\/([a-zA-Z0-9_-]{11})/] *)
Definition idPattern2 : jsstring -> option jsstring :=
  lit (str "youtu.be/") (group isIdChar 11).

(** [/embed\/([a-zA-Z0-9_-]{11})/] *)
Definition idPattern3 : jsstring -> option jsstring :=
  lit (str "embed/") (group isIdChar 11).

(** The first pattern that matches anywhere gives its group; [None] is
    the [null] of the source. *)
Fixpoint firstMatch (patterns : list (jsstring -> option jsstring)) (url : jsstring)
  : option jsstring :=
  match patterns with
  | [] => None
  | pattern :: rest =>
      match search pattern url with
      | Some g => Some g
      | None => firstMatch rest url
      end
  end.

Definition extractYouTubeVideoId (url : jsstring) : option jsstring :=
  firstMatch [idPattern1; idPattern2; idPattern3] url.


(** ** Effects: exceptions, the request log, the console and the page *)

Record JSError := mkError { message : string }.

Inductive outcome (A : Type) : Type :=
| Return (a : A)
| Throw (e : JSError).
Arguments Return {A} a.
Arguments Throw {A} e.

(** A parsed JSON document; a number keeps its literal text. *)
Inductive JSON : Type :=
| JNull
| JBool (b : bool)
| JNum (literal : jsstring)
| JStr (s : jsstring)
| JArr (items : list JSON)
| JObj (fields : list (jsstring * JSON)).

(** A property read on a value: [None] is [undefined]. *)
Definition JSField := option JSON.

Record VideoInfo := mkVideoInfo {
  title : JSField;
  author : JSField;
  thumbnail : JSField
}.

Record SummaryResult := mkSummary {
  summary : jsstring;
  keyPoints : list jsstring;
  wordCount : nat
}.

(** What [displayResults] hands to the rendering surface. *)
Record Display := mkDisplay {
  shownInfo : option VideoInfo;
  shownSummary : SummaryResult;
  shownTranscript : jsstring
}.

(** The elements of the page the driver writes to. *)
Record Page := mkPage {
  loadingSection_display : string;
  resultsSection_display : string;
  errorMessage_display : string;
  errorMessage_text : string;
  loadingStatus_text : string;
  displayed : option Display
}.

Record World := mkWorld {
  requests : list jsstring;   (* URLs given to fetch, oldest first *)
  console : list string;      (* console.log and console.error lines *)
  page : Page
}.

(** What [fetch] and the reading of a body may do. *)
Record Response := mkResponse {
  ok : bool;
  body : outcome jsstring
}.

Inductive FetchResult : Type :=
| Rejected (e : JSError)
| Responded (r : Response).

Module Async.

Definition M (A : Type) : Type := World -> outcome A * World.

Definition ret {A} (a : A) : M A := fun w => (Return a, w).
Definition throw {A} (e : JSError) : M A := fun w => (Throw e, w).

Definition bind {A B} (m : M A) (f : A -> M B) : M B := fun w =>
  match m w with
  | (Return a, w') => f a w'
  | (Throw e, w') => (Throw e, w')
  end.

(** [try { m } catch (error) { h error }] *)
Definition tryCatch {A} (m : M A) (h : JSError -> M A) : M A := fun w =>
  match m w with
  | (Return a, w') => (Return a, w')
  | (Throw e, w') => h e w'
  end.

(** [try { m } finally { f }], for a [finally] block that does not throw. *)
Definition tryFinally {A} (m : M A) (f : World -> World) : M A := fun w =>
  let (r, w') := m w in (r, f w').

Definition lift {A} (r : outcome A) : M A := fun w => (r, w).

Definition modify (f : World -> World) : M unit := fun w => (Return tt, f w).

Definition log (line : string) : M unit :=
  modify (fun w => mkWorld (requests w) (console w ++ [line]) (page w)).

Definition onPage (f : Page -> Page) : M unit :=
  modify (fun w => mkWorld (requests w) (console w) (f (page w))).

End Async.
Import Async.

Declare Scope async_scope.
Delimit Scope async_scope with async.
Notation "x <- m ;; k" := (bind m (fun x => k))
  (at level 61, m at next level, right associativity) : async_scope.
Notation "m ;;; k" := (bind m (fun _ => k))
  (at level 61, right associativity) : async_scope.
Open Scope async_scope.

(** The world after one more request. *)
Definition recordRequest (url : jsstring) (w : World) : World :=
  mkWorld (requests w ++ [url]) (console w) (page w).

(** ** Page setters *)

Definition set_loadingSection_display (v : string) (p : Page) : Page :=
  mkPage v (resultsSection_display p) (errorMessage_display p)
         (errorMessage_text p) (loadingStatus_text p) (displayed p).
Definition set_resultsSection_display (v : string) (p : Page) : Page :=
  mkPage (loadingSection_display p) v (errorMessage_display p)
         (errorMessage_text p) (loadingStatus_text p) (displayed p).
Definition set_errorMessage_display (v : string) (p : Page) : Page :=
  mkPage (loadingSection_display p) (resultsSection_display p) v
         (errorMessage_text p) (loadingStatus_text p) (displayed p).
Definition set_errorMessage_text (v : string) (p : Page) : Page :=
  mkPage (loadingSection_display p) (resultsSection_display p)
         (errorMessage_display p) v (loadingStatus_text p) (displayed p).
Definition set_loadingStatus_text (v : string) (p : Page) : Page :=
  mkPage (loadingSection_display p) (resultsSection_display p)
         (errorMessage_display p) (errorMessage_text p) v (displayed p).
Definition set_displayed (v : option Display) (p : Page) : Page :=
  mkPage (loadingSection_display p) (resultsSection_display p)
         (errorMessage_display p) (errorMessage_text p) (loadingStatus_text p) v.

(** ** encodeURIComponent *)

Definition hexDigit (n : N) : ascii :=
  if (n <? 10)%N then ascii_of_N (48 + n) else ascii_of_N (55 + n).

Definition percent (byte : N) : jsstring :=
  ["%"%char; hexDigit (byte / 16); hexDigit (byte mod 16)].

Definition isUnreserved (c : ascii) : bool :=
  isUpper c || isLower c || isDigit c
  || existsb (Ascii.eqb c) (str "-_.!~*'()").

(** Unreserved characters stay; any other code unit is written as the
    percent-escapes of its UTF-8 bytes (one below 128, two from 128 to 255). *)
Definition encodeChar (c : ascii) : jsstring :=
  if isUnreserved c then [c]
  else if (code c <? 128)%N then percent (code c)
  else percent (192 + code c / 64) ++ percent (128 + code c mod 64).

Definition encodeURIComponent (s : jsstring) : jsstring := flat_map encodeChar s.

(** ** The summarizer script *)

Section Browser.

(** The network: the result of a [fetch], given the earlier requests. *)
Variable network : list jsstring -> jsstring -> FetchResult.

(** [DOMParser.parseFromString(xml, 'text/xml').getElementsByTagName('text')]:
    the [textContent] of each element, in document order. *)
Variable textElements : jsstring -> list jsstring.

(** [JSON.parse]; [None] when the text is not JSON. *)
Variable parseJSON : jsstring -> option JSON.

Definition fetch (url : jsstring) : M Response := fun w =>
  match network (requests w) url with
  | Rejected e => (Throw e, recordRequest url w)
  | Responded r => (Return r, recordRequest url w)
  end.

(** [response.text()] *)
Definition text (r : Response) : M jsstring := lift (body r).

(** [response.json()] *)
Definition json (r : Response) : M JSON :=
  s <- text r ;;
  match parseJSON s with
  | Some v => ret v
  | None => throw (mkError "Unexpected token in JSON")
  end.

Definition parseYouTubeTranscriptXML (xmlText : jsstring) : jsstring :=
  let transcript :=
    fold_left (fun transcript el =>
                 let text := trim el in
                 match text with
                 | [] => transcript
                 | _ => transcript ++ text ++ str " "
                 end)
              (textElements xmlText) [] in
  trim transcript.

Definition timedtextUrl (videoId : jsstring) : jsstring :=
  str "https://www.youtube.com/api/timedtext?lang=en&v=" ++ videoId.

Definition codetabsUrl (videoId : jsstring) : jsstring :=
  str "https://api.codetabs.com/v1/proxy?quest="
  ++ encodeURIComponent (timedtextUrl videoId).

Definition corsAnywhereUrl (videoId : jsstring) : jsstring :=
  str "https://cors-anywhere.herokuapp.com/" ++ timedtextUrl videoId.

(** The body of each [try] block: [Some transcript] when the block
    executes its [return], [None] when control falls out of it. *)
Definition attempt (url : jsstring) : M (option jsstring) :=
  response <- fetch url ;;
  if ok response then
    xmlText <- text response ;;
    let transcript := parseYouTubeTranscriptXML xmlText in
    match transcript with
    | [] => ret None
    | _ => if 50 <? length transcript then ret (Some transcript) else ret None
    end
  else ret None.

Definition transcriptUnavailable : JSError :=
  mkError ("Unable to fetch transcript due to CORS restrictions. "
           ++ "Please set up a backend service (see README.md) or use a browser extension that disables CORS. "
           ++ "Alternatively, ensure the video has captions enabled.")%string.

Definition getYouTubeTranscript (videoId : jsstring) : M jsstring :=
  (* Method 1 *)
  r1 <- tryCatch (attempt (timedtextUrl videoId))
          (fun _ => log "Direct API call failed, trying proxy..." ;;; ret None) ;;
  match r1 with
  | Some transcript => ret transcript
  | None =>
    (* Method 2 *)
    r2 <- tryCatch (attempt (codetabsUrl videoId))
            (fun _ => log "Proxy method failed, trying alternative..." ;;; ret None) ;;
    match r2 with
    | Some transcript => ret transcript
    | None =>
      (* Method 3 *)
      r3 <- tryCatch (attempt (corsAnywhereUrl videoId))
              (fun _ => log "Alternative proxy failed" ;;; ret None) ;;
      match r3 with
      | Some transcript => ret transcript
      | None => throw transcriptUnavailable
      end
    end
  end.

(** [data.name]: reading a property of [null] throws, a missing
    property is [undefined]; with a repeated key the last one holds. *)
Fixpoint lookupField (name : jsstring) (fields : list (jsstring * JSON)) : JSField :=
  match fields with
  | [] => None
  | (k, v) :: rest =>
      match lookupField name rest with
      | Some v' => Some v'
      | None => if JSString.eqb k name then Some v else None
      end
  end.

Definition getField (data : JSON) (name : jsstring) : M JSField :=
  match data with
  | JNull => throw (mkError "Cannot read properties of null")
  | JObj fields => ret (lookupField name fields)
  | _ => ret None
  end.

Definition fallbackInfo : VideoInfo :=
  mkVideoInfo (Some (JStr (str "Video"))) (Some (JStr (str "Unknown"))) (Some JNull).

Definition oEmbedUrl (videoId : jsstring) : jsstring :=
  str "https://www.youtube.com/oembed?url=https://www.youtube.com/watch?v="
  ++ videoId ++ str "&format=json".

Definition getYouTubeVideoInfo (videoId : jsstring) : M VideoInfo :=
  tryCatch
    (response <- fetch (oEmbedUrl videoId) ;;
     (if negb (ok response)
      then throw (mkError "Failed to fetch video info")
      else ret tt) ;;;
     data <- json response ;;
     t <- getField data (str "title") ;;
     a <- getField data (str "author_name") ;;
     th <- getField data (str "thumbnail_url") ;;
     ret (mkVideoInfo t a th))
    (fun error =>
       log ("Error fetching video info: " ++ message error)%string ;;;
       ret fallbackInfo).

End Browser.

(** ** Double-precision arithmetic of [sentences.length * 0.2] *)

Module Double.

(** The double nearest to 0.2 is [mant02 * 2^-54]. *)
Definition mant02 : Z := 3602879701896397.

(** A non-negative binary fraction [m * 2^e]. *)
Definition dyadic := (Z * Z)%type.

(** Round-to-nearest, ties to even, of the non-negative integer [P] to 53
    significant bits: the result is [(q, s)] with value [q * 2^s]. *)
Definition round53 (P : Z) : dyadic :=
  let bits := (Z.log2 P + 1)%Z in
  if (bits <=? 53)%Z then (P, 0%Z)
  else
    let s := (bits - 53)%Z in
    let q := Z.shiftr P s in
    let r := (P mod 2 ^ s)%Z in
    let half := (2 ^ (s - 1))%Z in
    if (half <? r)%Z || ((r =? half)%Z && Z.odd q)
    then ((q + 1)%Z, s)
    else (q, s).

(** [n * 0.2] for an integer [n >= 0]: the exact product is
    [n * mant02 * 2^-54], rounded once. *)
Definition timesPoint2 (n : Z) : dyadic :=
  let (q, s) := round53 (n * mant02) in (q, (s - 54)%Z).

(** [Math.ceil] of a non-negative binary fraction. *)
Definition ceil (x : dyadic) : Z :=
  let (m, e) := x in
  if (0 <=? e)%Z then (m * 2 ^ e)%Z
  else ((m + 2 ^ (- e) - 1) / 2 ^ (- e))%Z.

End Double.

(** ** The extractive summarizer *)

Definition isSentenceEnd (c : ascii) : bool :=
  Ascii.eqb c "." || Ascii.eqb c "!" || Ascii.eqb c "?".

(** [text.split(/[.!?]+/).filter(s => s.trim().length > 20)] *)
Definition sentencesOf (text : jsstring) : list jsstring :=
  filter (fun s => 20 <? length (trim s)) (splitRuns isSentenceEnd text).

(** [Math.min(5, Math.ceil(sentences.length * 0.2))] *)
Definition summaryLength (sentences : list jsstring) : nat :=
  Z.to_nat (Z.min 5 (Double.ceil (Double.timesPoint2 (Z.of_nat (length sentences))))).

Definition stopWords : list jsstring :=
  map str ["the"; "a"; "an"; "and"; "or"; "but"; "in"; "on"; "at"; "to"; "for";
           "of"; "with"; "by"; "is"; "are"; "was"; "were"; "be"; "been"; "have";
           "has"; "had"; "do"; "does"; "did"; "will"; "would"; "could"; "should";
           "may"; "might"; "must"; "can"; "this"; "that"; "these"; "those"; "i";
           "you"; "he"; "she"; "it"; "we"; "they"]%string.

(** [stopWords.has(w)] *)
Definition has (set : list jsstring) (w : jsstring) : bool :=
  existsb (JSString.eqb w) set.

(** *** The object [wordFreq] *)

Module JSObject.

(** The values the script stores in [wordFreq]: numbers, and the strings
    that [+ 1] makes out of a value that is not a number. *)
Inductive JSValue : Type :=
| VNum (n : nat)
| VStr (s : jsstring).

(** Own properties, in the order of their creation. *)
Definition JSObject := list (jsstring * JSValue).

Fixpoint ownProperty (o : JSObject) (key : jsstring) : option JSValue :=
  match o with
  | [] => None
  | (k, v) :: rest => if JSString.eqb k key then Some v else ownProperty rest key
  end.

(** The function-valued properties that [{}] inherits from
    [Object.prototype], with the name each function prints. *)
Definition prototypeFunctions : list (jsstring * jsstring) :=
  map (fun kn => (str (fst kn), str (snd kn)))
    [("constructor", "Object");
     ("__defineGetter__", "__defineGetter__");
     ("__defineSetter__", "__defineSetter__");
     ("hasOwnProperty", "hasOwnProperty");
     ("__lookupGetter__", "__lookupGetter__");
     ("__lookupSetter__", "__lookupSetter__");
     ("isPrototypeOf", "isPrototypeOf");
     ("propertyIsEnumerable", "propertyIsEnumerable");
     ("toString", "toString");
     ("valueOf", "valueOf");
     ("toLocaleString", "toLocaleString")]%string.

Fixpoint assoc (table : list (jsstring * jsstring)) (key : jsstring) : option jsstring :=
  match table with
  | [] => None
  | (k, v) :: rest => if JSString.eqb k key then Some v else assoc rest key
  end.

(** What [o[key]] evaluates to. *)
Inductive Lookup : Type :=
| Undefined
| Own (v : JSValue)
| InheritedFunction (name : jsstring)
| InheritedProto.

Definition get (o : JSObject) (key : jsstring) : Lookup :=
  match ownProperty o key with
  | Some v => Own v
  | None =>
      match assoc prototypeFunctions key with
      | Some name => InheritedFunction name
      | None =>
          if JSString.eqb key (str "__proto__") then InheritedProto else Undefined
      end
  end.

(** [(x || 0) + 1]: a number is incremented ([0] and [undefined] give 1);
    anything else is truthy, is converted to a string and gets ["1"]
    appended. *)
Definition orZeroPlusOne (x : Lookup) : JSValue :=
  match x with
  | Undefined => VNum 1
  | Own (VNum n) => VNum (n + 1)
  | Own (VStr s) => VStr (s ++ str "1")
  | InheritedFunction name =>
      VStr (str "function " ++ name ++ str "() { [native code] }" ++ str "1")
  | InheritedProto => VStr (str "[object Object]1")
  end.

Fixpoint update (o : JSObject) (key : jsstring) (v : JSValue) : JSObject :=
  match o with
  | [] => [(key, v)]
  | (k, v0) :: rest =>
      if JSString.eqb k key then (k, v) :: rest else (k, v0) :: update rest key v
  end.

(** [o[key] = v] for a number or a string [v]: the setter of [__proto__]
    ignores such a value and no own property is made; any other key is
    written in place, or created at the end. *)
Definition set (o : JSObject) (key : jsstring) (v : JSValue) : JSObject :=
  if JSString.eqb key (str "__proto__") then o else update o key v.

(** The number a string of digits denotes. *)
Definition digitsValue (s : jsstring) : N :=
  fold_left (fun acc c => (acc * 10 + (code c - 48))%N) s 0%N.

(** An array index is the canonical decimal form of an integer from 0 to
    2^32 - 2. *)
Definition isArrayIndex (key : jsstring) : bool :=
  match key with
  | [] => false
  | c :: rest =>
      forallb isDigit key
      && (negb (Ascii.eqb c "0") || match rest with [] => true | _ => false end)
      && (digitsValue key <=? 4294967294)%N
  end.

Fixpoint insertIndex (e : jsstring * JSValue) (l : JSObject) : JSObject :=
  match l with
  | [] => [e]
  | e' :: l' =>
      if (digitsValue (fst e) <=? digitsValue (fst e'))%N
      then e :: l
      else e' :: insertIndex e l'
  end.

(** [Object.entries(o)]: the array-index keys in ascending numeric
    order, then the other keys in the order of their creation. *)
Definition entries (o : JSObject) : list (jsstring * JSValue) :=
  fold_right insertIndex [] (filter (fun e => isArrayIndex (fst e)) o)
  ++ filter (fun e => negb (isArrayIndex (fst e))) o.

(** [b[1] - a[1]]; [None] is [NaN].  The strings that [orZeroPlusOne]
    makes start with a letter or a bracket and convert to [NaN]. *)
Definition minus (x y : JSValue) : option Z :=
  match x, y with
  | VNum n, VNum m => Some (Z.of_nat n - Z.of_nat m)%Z
  | _, _ => None
  end.

Section Sort.
Variable A : Type.
Variable comparefn : A -> A -> option Z.

(** [b] goes before [a] when [comparefn(a, b) > 0]; [NaN] counts as 0. *)
Definition goesAfter (a b : A) : bool :=
  match comparefn a b with
  | Some v => (0 <? v)%Z
  | None => false
  end.

Fixpoint insert (a : A) (sorted : list A) : list A :=
  match sorted with
  | [] => [a]
  | b :: rest => if goesAfter a b then b :: insert a rest else a :: sorted
  end.

(** [Array.prototype.sort]: a stable sort, here by insertion from the
    right.  Every stable sort gives this result when [comparefn] is a
    consistent comparison. *)
Definition sort (l : list A) : list A := fold_right insert [] l.
End Sort.

End JSObject.
Import JSObject.

Definition extractKeyPoints (text : jsstring) : list jsstring :=
  let words := splitRuns isSpace (toLowerCase text) in
  let wordFreq :=
    fold_left (fun wordFreq word =>
                 let cleanWord := filter isWordChar word in
                 if (4 <? length cleanWord) && negb (has stopWords cleanWord)
                 then JSObject.set wordFreq cleanWord
                        (orZeroPlusOne (JSObject.get wordFreq cleanWord))
                 else wordFreq)
              words [] in
  let sortedWords :=
    map fst
      (firstn 5
         (JSObject.sort (fun a b => minus (snd b) (snd a)) (entries wordFreq))) in
  sortedWords.

Definition tooShort : JSError := mkError "Transcript too short to generate summary".

Definition generateSummary (text : jsstring) : outcome SummaryResult :=
  match text with
  | [] => Throw tooShort
  | _ =>
      if length text <? 50 then Throw tooShort
      else
        let sentences := sentencesOf text in
        let summaryLength := summaryLength sentences in
        let summary := join (str ". ") (firstn summaryLength sentences) ++ str "." in
        Return (mkSummary summary (extractKeyPoints text)
                          (length (splitRuns isSpace text)))
  end.

(** ** The page driver *)

Section Driver.
Variable network : list jsstring -> jsstring -> FetchResult.
Variable textElements : jsstring -> list jsstring.
Variable parseJSON : jsstring -> option JSON.

(** The rendering surface receives the payload and shows the results
    section; the markup it builds is not modelled. *)
Definition displayResults (videoInfo : option VideoInfo)
           (summaryData : SummaryResult) (transcript : jsstring) : M unit :=
  onPage (fun p => set_resultsSection_display "block"
                     (set_displayed (Some (mkDisplay videoInfo summaryData transcript)) p)).

Definition noTranscript : JSError :=
  mkError "No transcript available for this video. The video may not have captions enabled.".

(** The YouTube branch of the [try] block: it leaves the video info and
    the transcript.  [!videoId] holds for [null] and for the empty
    string. *)
Definition fetchYouTube (url : jsstring) : M (option VideoInfo * jsstring) :=
  onPage (set_loadingStatus_text "Extracting YouTube video information...") ;;;
  match extractYouTubeVideoId url with
  | None | Some [] => throw (mkError "Invalid YouTube URL format")
  | Some videoId =>
      videoInfo <- getYouTubeVideoInfo network parseJSON videoId ;;
      onPage (set_loadingStatus_text "Fetching transcript...") ;;;
      transcript <- getYouTubeTranscript network textElements videoId ;;
      match transcript with
      | [] => throw noTranscript
      | _ => if length transcript <? 50 then throw noTranscript
             else ret (Some videoInfo, transcript)
      end
  end.

Definition summarizeContent (url : jsstring) : M unit :=
  onPage (fun p => set_loadingSection_display "flex"
                     (set_errorMessage_display "none"
                        (set_resultsSection_display "none" p))) ;;;
  tryFinally
    (tryCatch
       (got <-
          (if isValidYouTubeURL url then fetchYouTube url
           else if isValidPodcastURL url then
             onPage (set_loadingStatus_text "Processing podcast feed...") ;;;
             throw (mkError "Podcast RSS feed processing requires backend setup. Please use YouTube videos for now.")
           else throw (mkError "Invalid URL. Please enter a valid YouTube URL.")) ;;
        let (videoInfo, transcript) := got in
        onPage (set_loadingStatus_text "Generating summary...") ;;;
        summaryData <- lift (generateSummary transcript) ;;
        displayResults videoInfo summaryData transcript)
       (fun error =>
          log ("Error: " ++ message error)%string ;;;
          onPage (fun p => set_errorMessage_display "block"
                             (set_errorMessage_text ("Error: " ++ message error)%string p))))
    (fun w => mkWorld (requests w) (console w)
                      (set_loadingSection_display "none" (page w))).
End Driver.

(** ** The price chart ([app.js]) *)

Section PriceChart.
(** The prices are the numbers [parseFloat] gives; the buffer does not
    look into them. *)
Variable Price : Type.

Definition maxDataPoints : nat := 50.

(** The two module-level arrays. *)
Record Chart := mkChart {
  priceHistory : list Price;
  timeLabels : list string
}.

Definition initial : Chart := mkChart [] [].

(** [a.push(x)] and [a.shift()] *)
Definition push {A} (a : list A) (x : A) : list A := a ++ [x].
Definition shift {A} (a : list A) : list A := tl a.

(** [updateChart(price)], with the label the clock gives at the call. *)
Definition updateChart (c : Chart) (sample : Price * string) : Chart :=
  let (price, timeLabel) := sample in
  let priceHistory := push (priceHistory c) price in
  let timeLabels := push (timeLabels c) timeLabel in
  if maxDataPoints <? length priceHistory
  then mkChart (shift priceHistory) (shift timeLabels)
  else mkChart priceHistory timeLabels.

(** The chart after one call per sample, oldest first. *)
Definition feed (c : Chart) (samples : list (Price * string)) : Chart :=
  fold_left updateChart samples c.
End PriceChart.

(** ** Vocabulary of the statements *)

(** The text has an 11-character id right after [marker]. *)
Definition hasIdAfter (marker url : jsstring) : Prop :=
  exists pre rest g, url = pre ++ marker ++ rest /\ group isIdChar 11 rest = Some g.

(** The last [n] elements of a list. *)
Definition lastN {A} (n : nat) (l : list A) : list A := skipn (length l - n) l.

Section Failures.
Variable network : list jsstring -> jsstring -> FetchResult.
Variable textElements : jsstring -> list jsstring.
Variable parseJSON : jsstring -> option JSON.

(** One [try] block of the chain together with its [catch]. *)
Definition strategy (url : jsstring) (line : string) : M (option jsstring) :=
  tryCatch (attempt network textElements url) (fun _ => log line ;;; ret None).

(** A retrieval strategy gives nothing: the request is rejected, the
    response is not ok, its body cannot be read, or the transcript
    parsed from it has at most 50 characters. *)
Definition strategyFails (r : FetchResult) : Prop :=
  match r with
  | Rejected _ => True
  | Responded rsp =>
      ok rsp = false
      \/ (exists e, body rsp = Throw e)
      \/ (exists xml, body rsp = Return xml
                      /\ length (parseYouTubeTranscriptXML textElements xml) <= 50)
  end.

(** The metadata request fails: network error, response not ok, body
    unreadable or not JSON. *)
Definition metadataFails (r : FetchResult) : Prop :=
  match r with
  | Rejected _ => True
  | Responded rsp =>
      ok rsp = false
      \/ (exists e, body rsp = Throw e)
      \/ (exists s, body rsp = Return s /\ parseJSON s = None)
  end.
End Failures.

(** ** Key points as the specification words them *)

(** The lowercased whitespace-split tokens, stripped of non-word
    characters, without the tokens of at most 4 characters and without
    the stop words. *)
Definition keywordTokens (text : jsstring) : list jsstring :=
  filter (fun w => (4 <? length w) && negb (has stopWords w))
         (map (filter isWordChar) (splitRuns isSpace (toLowerCase text))).

(** How often a token occurs. *)
Definition frequency (tokens : list jsstring) (t : jsstring) : nat :=
  length (filter (JSString.eqb t) tokens).

(** Where a token is first encountered. *)
Fixpoint firstIndex (tokens : list jsstring) (t : jsstring) : nat :=
  match tokens with
  | [] => 0
  | x :: rest => if JSString.eqb x t then 0 else S (firstIndex rest t)
  end.

(** [a] comes before [b] in a descending order of [cnt] with ties
    decided by ascending [pos]. *)
Definition rankedAbove (A : Type) (cnt pos : A -> nat) (a b : A) : Prop :=
  cnt b < cnt a \/ (cnt a = cnt b /\ pos a < pos b).

(** [t] ranks above [u]: more frequent, or as frequent and encountered
    earlier. *)
Definition ranksAbove (tokens : list jsstring) : jsstring -> jsstring -> Prop :=
  rankedAbove (frequency tokens) (firstIndex tokens).

(** The distinct tokens, in the order of their first occurrence. *)
Fixpoint distinct (tokens : list jsstring) : list jsstring :=
  match tokens with
  | [] => []
  | t :: rest => t :: filter (fun u => negb (JSString.eqb u t)) (distinct rest)
  end.

(** The comparison function of a descending order of [cnt]. *)
Definition descending (A : Type) (cnt : A -> nat) : A -> A -> option Z :=
  fun a b => Some (Z.of_nat (cnt b) - Z.of_nat (cnt a))%Z.

(** A stable sort by descending frequency, and its first five. *)
Definition byFrequency (tokens : list jsstring) : list jsstring :=
  JSObject.sort (descending (frequency tokens)) (distinct tokens).

Definition topKeywords (text : jsstring) : list jsstring :=
  firstn 5 (byFrequency (keywordTokens text)).

(** A key that [wordFreq], an ordinary object, treats like any other: not
    an array index, not a name inherited from [Object.prototype]. *)
Definition plainKey (key : jsstring) : bool :=
  negb (isArrayIndex key)
  && negb (isSome (assoc prototypeFunctions key))
  && negb (JSString.eqb key (str "__proto__")).

Definition constructorText : jsstring :=
  str "calls to the parent constructor run before the child constructor body".

(** One step of the counting loop, for a word that passed the filter. *)
Definition countWord (wordFreq : JSObject) (cleanWord : jsstring) : JSObject :=
  JSObject.set wordFreq cleanWord (orZeroPlusOne (JSObject.get wordFreq cleanWord)).

(** The same count on a table of numbers. *)
Fixpoint bump (table : list (jsstring * nat)) (t : jsstring) : list (jsstring * nat) :=
  match table with
  | [] => [(t, 1)]
  | (k, n) :: rest =>
      if JSString.eqb k t then (k, n + 1) :: rest else (k, n) :: bump rest t
  end.

Definition tally (tokens : list jsstring) : list (jsstring * nat) :=
  fold_left bump tokens [].

Definition asNumber (e : jsstring * nat) : jsstring * JSValue := (fst e, VNum (snd e)).

(** ** Pieces and runs of separators *)

Section Pieces.
Variable p : ascii -> bool.

(** No separator in [w]. *)
Definition free (w : jsstring) : Prop := forallb (fun c => negb (p c)) w = true.

(** A non-empty sequence of separators. *)
Definition run (r : jsstring) : Prop := r <> [] /\ forallb p r = true.

(** [s] does not start with a separator. *)
Definition startsFree (s : jsstring) : Prop :=
  match s with
  | [] => True
  | c :: _ => p c = false
  end.
End Pieces.

(** ** Sample data *)

Definition sampleId : jsstring := str "dQw4w9WgXcQ".

(** A caption of exactly 50 characters, and the document that holds it. *)
Definition fiftyChars : jsstring :=
  str "Never gonna give you up, never gonna let you down.".

Definition fiftyXml : jsstring :=
  str "<transcript><text>" ++ fiftyChars ++ str "</text></transcript>".

(** A document with two captions, 74 characters once joined. *)
Definition lyricsXml : jsstring :=
  str "<transcript><text>Never gonna give you up, </text><text> never gonna let you down, never gonna run around.</text></transcript>".

(** What the XML parser of the browser gives on the sample documents. *)
Definition sampleTextElements (xml : jsstring) : list jsstring :=
  if JSString.eqb xml fiftyXml then [fiftyChars]
  else if JSString.eqb xml lyricsXml
       then [str "Never gonna give you up, ";
             str " never gonna let you down, never gonna run around."]
       else [].

Definition failedToFetch : JSError := mkError "Failed to fetch".

(** The direct endpoint answers with [xml]; every other request fails. *)
Definition onlyDirect (xml : jsstring) : list jsstring -> jsstring -> FetchResult :=
  fun _ url =>
    if JSString.eqb url (timedtextUrl sampleId)
    then Responded (mkResponse true (Return xml))
    else Rejected failedToFetch.

(** Every request fails. *)
Definition offline : list jsstring -> jsstring -> FetchResult :=
  fun _ _ => Rejected failedToFetch.

Definition noJSON : jsstring -> option JSON := fun _ => None.

Definition blankPage : Page := mkPage "none" "none" "none" "" "" None.
Definition freshWorld : World := mkWorld [] [] blankPage.

(** ** Stages of the page driver *)

(** The world in which [summarizeContent] issues the metadata request. *)
Definition started (w : World) : World :=
  mkWorld (requests w) (console w)
          (mkPage "flex" "none" "none" (errorMessage_text (page w))
                  "Extracting YouTube video information..." (displayed (page w))).

(** The world in which it starts the transcript chain. *)
Definition fetching (w : World) : World :=
  mkWorld (requests w) (console w)
          (set_loadingStatus_text "Fetching transcript..." (page w)).

(** ** Texts without whitespace at the ends *)

Definition nonEmpty (s : jsstring) : bool :=
  match s with
  | [] => false
  | _ => true
  end.

(** The last character of [s] is of class [p]. *)
Definition endsWith (p : ascii -> bool) (s : jsstring) : Prop :=
  exists s' c, s = s' ++ [c] /\ p c = true.

(** Neither the first nor the last character is whitespace. *)
Definition edgeFree (s : jsstring) : Prop :=
  startsFree isSpace s /\ startsFree isSpace (rev s).

(** ** Messages of the page driver *)

Definition podcastMessage : string :=
  "Podcast RSS feed processing requires backend setup. Please use YouTube videos for now.".

Definition invalidUrlMessage : string :=
  "Invalid URL. Please enter a valid YouTube URL.".

(** ** Matching a longer text *)

(** A continuation that still succeeds when the text goes on. *)
Definition extends (R : Type) (k : jsstring -> option R) : Prop :=
  forall s suffix x, k s = Some x -> k (s ++ suffix) = Some x.

(** ** Characters of a key point *)

(** A lowercase letter, a digit or an underscore. *)
Definition isKeyChar (c : ascii) : bool :=
  isLower c || isDigit c || Ascii.eqb c "_".

(** ** The click handler of the summarizer page *)

(** The button with its label and its spinner. *)
Record Button := mkButton {
  disabled : bool;
  btnText_display : string;
  btnLoader_display : string
}.

Section Click.
Variable network : list jsstring -> jsstring -> FetchResult.
Variable textElements : jsstring -> list jsstring.
Variable parseJSON : jsstring -> option JSON.

(** The listener of [summarizeBtn], given [urlInput.value]: the state
    of the button and of the world once the handler has completed. *)
Definition onClick (value : jsstring) (b : Button) (w : World)
  : outcome unit * (Button * World) :=
  let url := trim value in
  match url with
  | [] =>
      (Return tt,
       (b, mkWorld (requests w) (console w)
             (set_errorMessage_display "block"
                (set_errorMessage_text "Please enter a URL" (page w)))))
  | _ =>
      (* the button is disabled and shows the spinner while the
         pipeline runs; the [finally] block resets it *)
      let (r, w') := summarizeContent network textElements parseJSON url w in
      (r, (mkButton false "inline" "none", w'))
  end.
End Click.

(** ** The price ticker ([app.js]) *)

Module Ticker.

(** A response of the exchange, with the status that the error message
    quotes. *)
Record ApiResponse := mkApiResponse {
  response : Response;
  status : string;
  statusText : string
}.

Inductive ApiResult : Type :=
| ApiRejected (e : JSError)
| ApiResponded (r : ApiResponse).

(** The two elements of the page that the ticker writes to. *)
Record PricePage := mkPricePage {
  currentPrice_text : string;
  currentPrice_color : string;
  priceChange_text : string;
  priceChange_class : string
}.

Definition binanceUrl : jsstring :=
  str "https://api.binance.com/api/v3/ticker/24hr?symbol=BTCUSDT".

(** [hay.includes(needle)] *)
Fixpoint includes (hay needle : string) : bool :=
  String.prefix needle hay
  || match hay with
     | EmptyString => false
     | String _ rest => includes rest needle
     end.

(** The tip starts with U+1F4A1, written here as its four UTF-8 bytes. *)
Definition tip : string :=
  String "240" (String "159" (String "146" (String "161"
    " Tip: Open this file using a local server (e.g., Live Server extension) to avoid CORS issues"))).

Section Poller.
(** The numbers of the script: what [parseFloat] gives and the chart
    stores. *)
Variable Price : Type.

(** The exchange, given the earlier requests. *)
Variable exchange : list jsstring -> jsstring -> ApiResult.
Variable parseJSON : jsstring -> option JSON.

(** [parseFloat(x)] for a property value [x]. *)
Variable parseFloat : JSField -> Price.

(** Whether the number that a JSON literal denotes is zero. *)
Variable isZero : jsstring -> bool.

(** [x.toLocaleString('en-US', {minimumFractionDigits: 2,
    maximumFractionDigits: 2})], [x.toFixed(2)] and [x >= 0]. *)
Variable toLocaleString2 : Price -> string.
Variable toFixed2 : Price -> string.
Variable geZero : Price -> bool.

(** The label that [toLocaleTimeString] gives when [updateChart] runs,
    given the requests made so far. *)
Variable clock : list jsstring -> string.

(** The errors of the engine: what [response.json()] throws on a text
    that is not JSON, and what reading a property of [null] throws. *)
Variable syntaxError : jsstring -> JSError.
Variable nullError : jsstring -> JSError.

Record State := mkState {
  sent : list jsstring;
  logged : list string;
  shown : PricePage;
  chart : Chart Price
}.

(** The truth value of a property value in a condition. *)
Definition truthy (x : JSField) : bool :=
  match x with
  | None => false
  | Some JNull => false
  | Some (JBool b) => b
  | Some (JNum literal) => negb (isZero literal)
  | Some (JStr s) => match s with [] => false | _ => true end
  | Some (JArr _) => true
  | Some (JObj _) => true
  end.

(** [data.name] *)
Definition property (data : JSON) (name : jsstring) : outcome JSField :=
  match data with
  | JNull => Throw (nullError name)
  | JObj fields => Return (lookupField name fields)
  | _ => Return None
  end.

Definition updatePriceDisplay (price change24h : Price) (p : PricePage) : PricePage :=
  let changePercent := toFixed2 change24h in
  let changeSign := if geZero change24h then "+"%string else EmptyString in
  mkPricePage
    ("$" ++ toLocaleString2 price)%string
    (currentPrice_color p)
    (changeSign ++ changePercent ++ "% (24h)")%string
    ("price-change " ++ (if geZero change24h then "positive" else "negative"))%string.

(** The [try] block up to the two numbers it passes on; the request
    itself is recorded by [fetchBitcoinPrice]. *)
Definition quote (history : list jsstring) : outcome (Price * Price) :=
  match exchange history binanceUrl with
  | ApiRejected e => Throw e
  | ApiResponded r =>
      if negb (ok (response r))
      then Throw (mkError ("API error: " ++ status r ++ " " ++ statusText r)%string)
      else
        match body (response r) with
        | Throw e => Throw e
        | Return s =>
            match parseJSON s with
            | None => Throw (syntaxError s)
            | Some data =>
                match property data (str "lastPrice") with
                | Throw e => Throw e
                | Return lastPrice =>
                    if truthy lastPrice then
                      match property data (str "priceChangePercent") with
                      | Throw e => Throw e
                      | Return percent =>
                          Return (parseFloat lastPrice, parseFloat percent)
                      end
                    else Throw (mkError "Invalid data format from API")
                end
            end
        end
  end.

(** The [catch] block. *)
Definition showError (error : JSError) (t : State) : State :=
  let errorMsg := match message error with
                  | EmptyString => "Network error"%string
                  | m => m
                  end in
  let lines :=
    [("Error fetching Bitcoin price: " ++ message error)%string]
    ++ match message error with
       | EmptyString => []
       | m => if includes m "CORS" || includes m "Failed to fetch" then [tip] else []
       end in
  mkState (sent t) (logged t ++ lines)
          (mkPricePage ("Error: " ++ errorMsg)%string "#f44336"
                       (priceChange_text (shown t)) (priceChange_class (shown t)))
          (chart t).

(** One run of [fetchBitcoinPrice], from the request to the end of the
    [try] or of the [catch] block. *)
Definition fetchBitcoinPrice (t : State) : State :=
  let t1 := mkState (sent t ++ [binanceUrl]) (logged t) (shown t) (chart t) in
  match quote (sent t) with
  | Return (price, change24h) =>
      mkState (sent t1) (logged t1)
              (updatePriceDisplay price change24h (shown t1))
              (updateChart (chart t1) (price, clock (sent t1)))
  | Throw error => showError error t1
  end.

(** [n] completed runs, one after the other: the call at page load and
    the calls of the interval. *)
Fixpoint poll (n : nat) (t : State) : State :=
  match n with
  | O => t
  | S n' => poll n' (fetchBitcoinPrice t)
  end.

(** The samples that [n] runs add to the chart, oldest first. *)
Fixpoint samples (n : nat) (t : State) : list (Price * string) :=
  match n with
  | O => []
  | S n' =>
      match quote (sent t) with
      | Return (price, _) =>
          (price, clock (sent t ++ [binanceUrl])) :: samples n' (fetchBitcoinPrice t)
      | Throw _ => samples n' (fetchBitcoinPrice t)
      end
  end.

(** The page as it loads: nothing requested, an empty chart. *)
Definition loaded (p : PricePage) : State := mkState [] [] p (initial Price).

(** The answer of the exchange gives no price: the request is rejected,
    the response is not ok, its body cannot be read or is not JSON, the
    document is [null], or its [lastPrice] is missing or falsy. *)
Definition noPrice (a : ApiResult) : Prop :=
  match a with
  | ApiRejected _ => True
  | ApiResponded r =>
      ok (response r) = false
      \/ (exists e, body (response r) = Throw e)
      \/ (exists s, body (response r) = Return s
                    /\ (parseJSON s = None
                        \/ parseJSON s = Some JNull
                        \/ exists data lastPrice,
                            parseJSON s = Some data
                            /\ property data (str "lastPrice") = Return lastPrice
                            /\ truthy lastPrice = false))
  end.
End Poller.

End Ticker.

(** ** Sample data of the ticker *)

Module TickerSample.
Import Ticker.

(** Prices as the text of the number. *)
Definition parseFloat (x : JSField) : string :=
  match x with
  | Some (JStr s) => string_of_list_ascii s
  | _ => "NaN"
  end.

Definition geZero (x : string) : bool := negb (String.prefix "-" x).
Definition sameText (x : string) : string := x.
Definition noon (_ : list jsstring) : string := "12:00:00 PM".
Definition notZero (_ : jsstring) : bool := false.
Definition unexpectedToken (_ : jsstring) : JSError := mkError "Unexpected token".
Definition readOfNull (_ : jsstring) : JSError := mkError "Cannot read properties of null".

Definition quoteMark : ascii := "034".

(** The body [{"lastPrice":"43000.10","priceChangePercent":"-1.25"}]. *)
Definition tickerBody : jsstring :=
  str "{" ++ [quoteMark] ++ str "lastPrice" ++ [quoteMark] ++ str ":"
  ++ [quoteMark] ++ str "43000.10" ++ [quoteMark] ++ str ","
  ++ [quoteMark] ++ str "priceChangePercent" ++ [quoteMark] ++ str ":"
  ++ [quoteMark] ++ str "-1.25" ++ [quoteMark] ++ str "}".

Definition tickerJSON (s : jsstring) : option JSON :=
  if JSString.eqb s tickerBody
  then Some (JObj [(str "lastPrice", JStr (str "43000.10"));
                   (str "priceChangePercent", JStr (str "-1.25"))])
  else None.

(** The exchange answers every request with the body above. *)
Definition up : list jsstring -> jsstring -> ApiResult :=
  fun _ _ => ApiResponded (mkApiResponse (mkResponse true (Return tickerBody)) "200" "OK").

(** The exchange is out of service. *)
Definition down : list jsstring -> jsstring -> ApiResult :=
  fun _ _ => ApiResponded
               (mkApiResponse (mkResponse false (Return [])) "503" "Service Unavailable").

(** The first request fails, the later ones are answered. *)
Definition flaky : list jsstring -> jsstring -> ApiResult :=
  fun history url =>
    match history with
    | [] => ApiRejected (mkError "Failed to fetch")
    | _ => up history url
    end.

Definition startPage : PricePage := mkPricePage "Loading..." "" "" "price-change".
End TickerSample.

(** * Properties *)

Example isValid_sample :
  isValidYouTubeURL (str "https://www.youtube.com/watch?v=dQw4w9WgXcQ") = true.
Proof. reflexivity. Qed.

Example extract_sample :
  extractYouTubeVideoId (str "https://www.youtube.com/watch?v=dQw4w9WgXcQ&t=1")
  = Some (str "dQw4w9WgXcQ").
Proof. reflexivity. Qed.

Example podcast_sample :
  isValidPodcastURL (str "https://Example.org/show.RSS") = true
  /\ isValidPodcastURL (str "ftp://x/my-Podcast") = true
  /\ isValidPodcastURL (str "https://example.org/") = false.
Proof. repeat split; reflexivity. Qed.

Example split_samples :
  splitRuns isSpace (str " a  b ") = [str ""; str "a"; str "b"; str ""]
  /\ splitRuns isSpace (str "") = [str ""]
  /\ splitRuns isSpace (str "a") = [str "a"].
Proof. repeat split; reflexivity. Qed.

(** ** Matchers *)

Section MatcherFacts.
Variable R : Type.
Implicit Types (k : jsstring -> option R) (s t : jsstring).

Lemma lit_app t k s : lit t k (t ++ s) = k s.
Proof.
  induction t as [|a t IH]; simpl; [reflexivity|].
  now rewrite Ascii.eqb_refl.
Qed.

Lemma lit_inv t k s x :
  lit t k s = Some x -> exists r, s = t ++ r /\ k r = Some x.
Proof.
  revert s; induction t as [|a t IH]; simpl; intros s H.
  - now exists s.
  - destruct s as [|c s]; [discriminate|].
    destruct (Ascii.eqb a c) eqn:E; [|discriminate].
    apply Ascii.eqb_eq in E; subst c.
    destruct (IH _ H) as (r & -> & Hr). now exists r.
Qed.

Lemma opt_inv (m : Matcher R) k s x :
  opt m k s = Some x -> m k s = Some x \/ k s = Some x.
Proof.
  unfold opt. destruct (m k s); intros H; [left | right]; assumption.
Qed.

Lemma alt_inv (m1 m2 : Matcher R) k s x :
  alt m1 m2 k s = Some x -> m1 k s = Some x \/ m2 k s = Some x.
Proof.
  unfold alt. destruct (m1 k s); intros H; [left | right]; assumption.
Qed.

Lemma search_hit (m : jsstring -> option R) s x :
  m s = Some x -> search m s = Some x.
Proof. intros H. destruct s; simpl; now rewrite H. Qed.

Lemma search_cons_fail (m : jsstring -> option R) c s :
  m (c :: s) = None -> search m (c :: s) = search m s.
Proof. intros H. simpl. now rewrite H. Qed.

Lemma search_inv (m : jsstring -> option R) s x :
  search m s = Some x -> exists pre suf, s = pre ++ suf /\ m suf = Some x.
Proof.
  induction s as [|c s IH]; simpl.
  - destruct (m []) eqn:E; [|discriminate].
    intros [= <-]. now exists [], [].
  - destruct (m (c :: s)) eqn:E.
    + intros [= <-]. now exists [], (c :: s).
    + intros H. destruct (IH H) as (pre & suf & -> & Hm).
      now exists (c :: pre), suf.
Qed.

(** A match at some position makes the search succeed (with the
    leftmost match, which may be another one). *)
Lemma search_suffix (m : jsstring -> option R) pre suf x :
  m suf = Some x -> exists y, search m (pre ++ suf) = Some y.
Proof.
  intros H. induction pre as [|c pre IH]; simpl.
  - exists x. now apply search_hit.
  - destruct (m (c :: pre ++ suf)); eauto.
Qed.

Lemma search_none (m : jsstring -> option R) s :
  (forall pre suf, s = pre ++ suf -> m suf = None) -> search m s = None.
Proof.
  intros H. destruct (search m s) eqn:E; [|reflexivity].
  destruct (search_inv _ _ E) as (pre & suf & Hs & Hm).
  rewrite (H _ _ Hs) in Hm. discriminate.
Qed.

Lemma search_cls_none p k s :
  forallb (fun c => negb (p c)) s = true -> search (cls p k) s = None.
Proof.
  intros H. apply search_none. intros pre suf ->.
  rewrite forallb_app in H. apply andb_true_iff in H as [_ H].
  destruct suf as [|c suf]; simpl in *; [reflexivity|].
  apply andb_true_iff in H as [H _]. now destruct (p c).
Qed.

(** A literal only matches inside a text that has all its characters. *)
Lemma search_lit_none t k s a :
  In a t -> ~ In a s -> search (lit t k) s = None.
Proof.
  intros Ha Hs. apply search_none. intros pre suf ->.
  destruct (lit t k suf) as [x|] eqn:E; [|reflexivity].
  destruct (lit_inv _ _ _ E) as (rest & -> & _).
  exfalso. apply Hs. rewrite !in_app_iff. auto.
Qed.
End MatcherFacts.

Lemma group_inv p n s g :
  group p n s = Some g ->
  length g = n /\ forallb p g = true /\ exists r, s = g ++ r.
Proof.
  revert s g; induction n as [|n IH]; simpl; intros s g H.
  - injection H as <-. repeat split. now exists s.
  - destruct s as [|c s]; [discriminate|].
    destruct (p c) eqn:Ep; [|discriminate].
    destruct (group p n s) as [g'|] eqn:Eg; [|discriminate].
    injection H as <-.
    destruct (IH _ _ Eg) as (Hl & Hp & r & ->).
    simpl. rewrite Hl, Ep, Hp. repeat split. now exists r.
Qed.

Lemma group_app p g rest :
  forallb p g = true -> group p (length g) (g ++ rest) = Some g.
Proof.
  induction g as [|c g IH]; simpl; [reflexivity|].
  intros H. apply andb_true_iff in H as [Hc Hg].
  now rewrite Hc, IH.
Qed.

Lemma group_exact p n g :
  length g = n -> forallb p g = true -> group p n g = Some g.
Proof.
  intros <- H. rewrite <- (app_nil_r g) at 2. now apply group_app.
Qed.

(** ** Characters of a video id *)

Lemma idChar_not_query c :
  isIdChar c = true -> (Ascii.eqb c "?" || Ascii.eqb c "&") = false.
Proof.
  destruct c as [[] [] [] [] [] [] [] []]; vm_compute; congruence.
Qed.

Lemma idChar_not_dot c : isIdChar c = true -> c <> "."%char.
Proof.
  destruct c as [[] [] [] [] [] [] [] []]; vm_compute; congruence.
Qed.

Lemma id_no_query id :
  forallb isIdChar id = true ->
  forallb (fun c => negb (Ascii.eqb c "?" || Ascii.eqb c "&")) id = true.
Proof.
  rewrite !forallb_forall. intros H c Hc.
  now rewrite (idChar_not_query _ (H c Hc)).
Qed.

Lemma id_no_dot id : forallb isIdChar id = true -> ~ In "."%char id.
Proof.
  rewrite forallb_forall. intros H Hin.
  now apply (idChar_not_dot (H _ Hin)).
Qed.

(** ** The video id of an accepted URL *)

(** Steps of a search over a text whose head is known. *)
Ltac skip_positions :=
  repeat (rewrite search_cons_fail by reflexivity).

Lemma search_idPattern1_id id :
  forallb isIdChar id = true -> search idPattern1 id = None.
Proof.
  intros H. apply search_cls_none. now apply id_no_query.
Qed.

Lemma search_idPattern2_id id :
  forallb isIdChar id = true -> search idPattern2 id = None.
Proof.
  intros H. apply search_lit_none with (a := "."%char).
  - vm_compute. tauto.
  - now apply id_no_dot.
Qed.

Section Shapes.
Variable id : jsstring.
Hypothesis id_length : length id = 11.
Hypothesis id_chars : forallb isIdChar id = true.

Let id_group : group isIdChar 11 id = Some id.
Proof. now apply group_exact. Qed.

(** Evaluation of an anchored pattern up to the group of the id. *)
Ltac eval_pattern :=
  generalize id_group; generalize (group isIdChar 11); intros k Hk;
  vm_compute; rewrite ?Hk; reflexivity.

Lemma valid_watch scheme www :
  In scheme [str "http://"; str "https://"] -> In www [str ""; str "www."] ->
  isValidYouTubeURL (scheme ++ www ++ str "youtube.com/watch?v=" ++ id) = true.
Proof.
  simpl. intros [<-|[<-|[]]] [<-|[<-|[]]];
    unfold isValidYouTubeURL, validPattern1; eval_pattern.
Qed.

Lemma valid_short scheme www :
  In scheme [str "http://"; str "https://"] -> In www [str ""; str "www."] ->
  isValidYouTubeURL (scheme ++ www ++ str "youtu.be/" ++ id) = true.
Proof.
  simpl. intros [<-|[<-|[]]] [<-|[<-|[]]];
    unfold isValidYouTubeURL, validPattern1; eval_pattern.
Qed.

Lemma valid_embed scheme www :
  In scheme [str "http://"; str "https://"] -> In www [str ""; str "www."] ->
  isValidYouTubeURL (scheme ++ www ++ str "youtube.com/embed/" ++ id) = true.
Proof.
  simpl. intros [<-|[<-|[]]] [<-|[<-|[]]];
    unfold isValidYouTubeURL, validPattern1, validPattern2; eval_pattern.
Qed.

(** The query form, whatever follows the id. *)
Lemma extract_watch scheme www rest :
  In scheme [str "http://"; str "https://"] -> In www [str ""; str "www."] ->
  extractYouTubeVideoId (scheme ++ www ++ str "youtube.com/watch?v=" ++ id ++ rest)
  = Some id.
Proof.
  assert (G : group isIdChar 11 (id ++ rest) = Some id)
    by (rewrite <- id_length; now apply group_app).
  simpl. intros [<-|[<-|[]]] [<-|[<-|[]]];
    unfold extractYouTubeVideoId, firstMatch;
    cbn [str list_ascii_of_string app];
    skip_positions;
    erewrite search_hit by exact G; reflexivity.
Qed.

Lemma extract_short scheme www :
  In scheme [str "http://"; str "https://"] -> In www [str ""; str "www."] ->
  extractYouTubeVideoId (scheme ++ www ++ str "youtu.be/" ++ id) = Some id.
Proof.
  simpl. intros [<-|[<-|[]]] [<-|[<-|[]]];
    unfold extractYouTubeVideoId, firstMatch;
    cbn [str list_ascii_of_string app];
    skip_positions;
    rewrite (@search_idPattern1_id id id_chars);
    skip_positions;
    erewrite search_hit by exact id_group; reflexivity.
Qed.

Lemma extract_embed scheme www :
  In scheme [str "http://"; str "https://"] -> In www [str ""; str "www."] ->
  extractYouTubeVideoId (scheme ++ www ++ str "youtube.com/embed/" ++ id) = Some id.
Proof.
  simpl. intros [<-|[<-|[]]] [<-|[<-|[]]];
    unfold extractYouTubeVideoId, firstMatch;
    cbn [str list_ascii_of_string app];
    skip_positions;
    rewrite (@search_idPattern1_id id id_chars);
    skip_positions;
    rewrite (@search_idPattern2_id id id_chars);
    skip_positions;
    erewrite search_hit by exact id_group; reflexivity.
Qed.
End Shapes.

(** Every group the extractor returns is an id of 11 characters. *)
Lemma extract_some_id url id :
  extractYouTubeVideoId url = Some id ->
  length id = 11 /\ forallb isIdChar id = true.
Proof.
  unfold extractYouTubeVideoId, firstMatch.
  assert (P1 : forall g, search idPattern1 url = Some g ->
                         length g = 11 /\ forallb isIdChar g = true).
  { intros g H. apply search_inv in H as (pre & suf & _ & H).
    unfold idPattern1, cls in H.
    destruct suf as [|c suf]; [discriminate|].
    destruct (_ || _); [|discriminate].
    apply lit_inv in H as (r & _ & H).
    apply group_inv in H. tauto. }
  assert (P23 : forall marker g,
             search (lit marker (group isIdChar 11)) url = Some g ->
             length g = 11 /\ forallb isIdChar g = true).
  { intros marker g H. apply search_inv in H as (pre & suf & _ & H).
    apply lit_inv in H as (r & _ & H).
    apply group_inv in H. tauto. }
  destruct (search idPattern1 url) as [g1|] eqn:E1.
  { intros [= <-]. now apply P1. }
  destruct (search idPattern2 url) as [g2|] eqn:E2.
  { intros [= <-]. now apply (P23 _ _ E2). }
  destruct (search idPattern3 url) as [g3|] eqn:E3.
  { intros [= <-]. now apply (P23 _ _ E3). }
  discriminate.
Qed.

Lemma valid_has_marker url :
  isValidYouTubeURL url = true ->
  hasIdAfter (str "?v=") url \/ hasIdAfter (str "youtu.be/") url
  \/ hasIdAfter (str "embed/") url.
Proof.
  unfold isValidYouTubeURL, existsb. rewrite orb_false_r.
  intros H. apply orb_true_iff in H as [H|H].
  - destruct (validPattern1 url) as [g|] eqn:E; [clear H|discriminate].
    unfold validPattern1 in E.
    apply lit_inv in E as (r1 & -> & E).
    assert (T : forall s, alt (lit (str "youtube.com/watch?v=")) (lit (str "youtu.be/"))
                              (group isIdChar 11) s = Some g ->
                          forall pre, hasIdAfter (str "?v=") (pre ++ s)
                                      \/ hasIdAfter (str "youtu.be/") (pre ++ s)).
    { intros s Hs pre. apply alt_inv in Hs as [Hs|Hs];
        apply lit_inv in Hs as (r & -> & Hs).
      - left. exists (pre ++ str "youtube.com/watch"), r, g.
        split; [|assumption]. now rewrite <- app_assoc.
      - right. now exists pre, r, g. }
    assert (W : forall s, opt (lit (str "www."))
                              (alt (lit (str "youtube.com/watch?v=")) (lit (str "youtu.be/"))
                                   (group isIdChar 11)) s = Some g ->
                          forall pre, hasIdAfter (str "?v=") (pre ++ s)
                                      \/ hasIdAfter (str "youtu.be/") (pre ++ s)).
    { intros s Hs pre. apply opt_inv in Hs as [Hs|Hs]; [|now apply T].
      apply lit_inv in Hs as (r & -> & Hs).
      rewrite app_assoc. now apply T. }
    assert (S : forall s, lit (str "://")
                              (opt (lit (str "www."))
                                 (alt (lit (str "youtube.com/watch?v=")) (lit (str "youtu.be/"))
                                      (group isIdChar 11))) s = Some g ->
                          forall pre, hasIdAfter (str "?v=") (pre ++ s)
                                      \/ hasIdAfter (str "youtu.be/") (pre ++ s)).
    { intros s Hs pre. apply lit_inv in Hs as (r & -> & Hs).
      rewrite app_assoc. now apply W. }
    apply opt_inv in E as [E|E].
    + apply lit_inv in E as (r2 & -> & E).
      rewrite app_assoc. destruct (S _ E (str "http" ++ str "s")); tauto.
    + destruct (S _ E (str "http")); tauto.
  - destruct (validPattern2 url) as [g|] eqn:E; [clear H|discriminate].
    unfold validPattern2 in E.
    apply lit_inv in E as (r1 & -> & E).
    assert (T : forall s, lit (str "youtube.com/embed/") (group isIdChar 11) s = Some g ->
                          forall pre, hasIdAfter (str "embed/") (pre ++ s)).
    { intros s Hs pre. apply lit_inv in Hs as (r & -> & Hs).
      exists (pre ++ str "youtube.com/"), r, g.
      split; [|assumption]. now rewrite <- app_assoc. }
    assert (W : forall s, opt (lit (str "www."))
                              (lit (str "youtube.com/embed/") (group isIdChar 11)) s = Some g ->
                          forall pre, hasIdAfter (str "embed/") (pre ++ s)).
    { intros s Hs pre. apply opt_inv in Hs as [Hs|Hs]; [|now apply T].
      apply lit_inv in Hs as (r & -> & Hs).
      rewrite app_assoc. now apply T. }
    assert (S : forall s, lit (str "://")
                              (opt (lit (str "www."))
                                 (lit (str "youtube.com/embed/") (group isIdChar 11))) s = Some g ->
                          forall pre, hasIdAfter (str "embed/") (pre ++ s)).
    { intros s Hs pre. apply lit_inv in Hs as (r & -> & Hs).
      rewrite app_assoc. now apply W. }
    right; right.
    apply opt_inv in E as [E|E].
    + apply lit_inv in E as (r2 & -> & E).
      rewrite app_assoc. now apply S.
    + now apply S.
Qed.

Lemma marker_found marker url :
  hasIdAfter marker url ->
  exists g, search (lit marker (group isIdChar 11)) url = Some g.
Proof.
  intros (pre & rest & g & -> & Hg).
  apply search_suffix with (x := g). now rewrite lit_app.
Qed.

Lemma valid_extracts url :
  isValidYouTubeURL url = true -> exists id, extractYouTubeVideoId url = Some id.
Proof.
  intros H. unfold extractYouTubeVideoId, firstMatch.
  destruct (search idPattern1 url) as [g1|] eqn:E1; [now exists g1|].
  destruct (search idPattern2 url) as [g2|] eqn:E2; [now exists g2|].
  destruct (search idPattern3 url) as [g3|] eqn:E3; [now exists g3|].
  exfalso.
  destruct (valid_has_marker _ H) as [M|[M|M]].
  - destruct M as (pre & rest & g & -> & Hg).
    destruct (search_suffix idPattern1 pre (str "?v=" ++ rest) (x := g)) as [y Hy].
    + exact Hg.
    + congruence.
  - apply marker_found in M as [g Hg]. unfold idPattern2 in E2. congruence.
  - apply marker_found in M as [g Hg]. unfold idPattern3 in E3. congruence.
Qed.

(** C7: for every 11-character id of letters, digits, hyphens and
    underscores, each of the three accepted URL shapes (query form,
    short-link form, embed form; http or https, with or without www.) is
    accepted by [isValidYouTubeURL] and [extractYouTubeVideoId] returns
    that id from it; for https://www.youtube.com/watch?v=dQw4w9WgXcQ the
    classifier accepts and the extractor returns dQw4w9WgXcQ. *)
Theorem extract_same_id_from_each_shape :
  forall id scheme www,
    length id = 11 -> forallb isIdChar id = true ->
    In scheme [str "http://"; str "https://"] -> In www [str ""; str "www."] ->
    (let url := scheme ++ www ++ str "youtube.com/watch?v=" ++ id in
     isValidYouTubeURL url = true /\ extractYouTubeVideoId url = Some id)
    /\ (let url := scheme ++ www ++ str "youtu.be/" ++ id in
        isValidYouTubeURL url = true /\ extractYouTubeVideoId url = Some id)
    /\ (let url := scheme ++ www ++ str "youtube.com/embed/" ++ id in
        isValidYouTubeURL url = true /\ extractYouTubeVideoId url = Some id)
    /\ (isValidYouTubeURL (str "https://www.youtube.com/watch?v=dQw4w9WgXcQ") = true
        /\ extractYouTubeVideoId (str "https://www.youtube.com/watch?v=dQw4w9WgXcQ")
           = Some (str "dQw4w9WgXcQ")).
Proof.
  intros id scheme www Hlen Hchars Hscheme Hwww.
  repeat split.
  - now apply valid_watch.
  - rewrite <- (app_nil_r id) at 1. now apply extract_watch.
  - now apply valid_short.
  - now apply extract_short.
  - now apply valid_embed.
  - now apply extract_embed.
Qed.

Lemma extract_same_id_from_each_shape_witness :
  (let url := str "https://" ++ str "www." ++ str "youtube.com/watch?v=" ++ str "dQw4w9WgXcQ" in
   isValidYouTubeURL url = true /\ extractYouTubeVideoId url = Some (str "dQw4w9WgXcQ"))
  /\ (let url := str "https://" ++ str "www." ++ str "youtu.be/" ++ str "dQw4w9WgXcQ" in
      isValidYouTubeURL url = true /\ extractYouTubeVideoId url = Some (str "dQw4w9WgXcQ"))
  /\ (let url := str "https://" ++ str "www." ++ str "youtube.com/embed/" ++ str "dQw4w9WgXcQ" in
      isValidYouTubeURL url = true /\ extractYouTubeVideoId url = Some (str "dQw4w9WgXcQ"))
  /\ (isValidYouTubeURL (str "https://www.youtube.com/watch?v=dQw4w9WgXcQ") = true
      /\ extractYouTubeVideoId (str "https://www.youtube.com/watch?v=dQw4w9WgXcQ")
         = Some (str "dQw4w9WgXcQ")).
Proof.
  apply (@extract_same_id_from_each_shape (str "dQw4w9WgXcQ") (str "https://") (str "www.")).
  - reflexivity.
  - reflexivity.
  - simpl; auto.
  - simpl; auto.
Defined.

(** ** The price history *)

Section PriceChartFacts.
Variable Price : Type.
Implicit Types (c : Chart Price) (samples : list (Price * string)).

Lemma lastN_short {A} n (l : list A) : length l <= n -> lastN n l = l.
Proof.
  intros H. unfold lastN. now replace (length l - n) with 0 by lia.
Qed.

Lemma lastN_length {A} n (l : list A) : length (lastN n l) = Nat.min n (length l).
Proof. unfold lastN. rewrite length_skipn. lia. Qed.

Lemma tl_skipn {A} n (l : list A) : tl (skipn n l) = skipn (S n) l.
Proof.
  revert l; induction n as [|n IH]; intros [|x l]; try reflexivity.
  exact (IH l).
Qed.

(** Pushing on a window of at most [n] elements and shifting when it
    overflows keeps the last [n] elements. *)
Lemma lastN_push {A} n (l : list A) x :
  0 < n ->
  lastN n (l ++ [x]) =
  if n <? length (lastN n l ++ [x]) then tl (lastN n l ++ [x]) else lastN n l ++ [x].
Proof.
  intros Hn. rewrite length_app, lastN_length. simpl.
  destruct (Nat.ltb_spec n (Nat.min n (length l) + 1)) as [H|H].
  - assert (Hl : n <= length l) by lia.
    unfold lastN. rewrite length_app; simpl length.
    replace (length l + 1 - n) with (S (length l - n)) by lia.
    rewrite skipn_app.
    replace (S (length l - n) - length l) with 0 by lia.
    rewrite <- tl_skipn. simpl (skipn 0 _).
    destruct (skipn (length l - n) l) as [|y ys] eqn:E; [|reflexivity].
    apply (f_equal (@length A)) in E. rewrite length_skipn in E.
    simpl in E. lia.
  - assert (Hl : length l < n) by lia.
    rewrite (lastN_short (n := n) l) by lia.
    apply lastN_short. rewrite length_app; simpl. lia.
Qed.

Lemma feed_snoc c samples sample :
  feed c (samples ++ [sample]) = updateChart (feed c samples) sample.
Proof. unfold feed. now rewrite fold_left_app. Qed.

(** From the empty chart, the two arrays hold the last 50 prices and
    the last 50 labels. *)
Lemma feed_window samples :
  priceHistory (feed (initial Price) samples) = lastN maxDataPoints (map fst samples)
  /\ timeLabels (feed (initial Price) samples) = lastN maxDataPoints (map snd samples).
Proof.
  induction samples as [|sample samples IH] using rev_ind.
  - split; reflexivity.
  - destruct IH as [IHp IHl]. rewrite feed_snoc.
    destruct sample as [price label]. unfold updateChart, push, shift.
    rewrite !map_app; simpl map.
    rewrite !(lastN_push (n := maxDataPoints)) by (unfold maxDataPoints; lia).
    rewrite IHp, IHl.
    rewrite !length_app, !lastN_length, !length_map.
    destruct (_ <? _); split; reflexivity.
Qed.
End PriceChartFacts.

(** C2: starting from the empty chart, after every call of [updateChart]
    the price buffer holds at most 50 entries and [priceHistory] and
    [timeLabels] have the same length; the two arrays are the last 50
    samples in order of arrival, so after the 51st sample the buffer is
    samples 2 to 51 and the first sample is gone (first in, first out). *)
Theorem price_buffer_bounded_fifo :
  forall (Price : Type) (samples : list (Price * string)),
    let c := feed (initial Price) samples in
    length (priceHistory c) <= 50
    /\ length (priceHistory c) = length (timeLabels c)
    /\ priceHistory c = lastN 50 (map fst samples)
    /\ timeLabels c = lastN 50 (map snd samples)
    /\ (forall first rest,
           samples = first :: rest -> length rest = 50 ->
           priceHistory c = map fst rest
           /\ timeLabels c = map snd rest
           /\ (NoDup (map fst samples) -> ~ In (fst first) (priceHistory c))).
Proof.
  intros Price samples c.
  destruct (feed_window samples) as [Hp Hl]. fold c in Hp, Hl.
  change maxDataPoints with 50 in Hp, Hl.
  repeat split.
  - rewrite Hp, lastN_length. lia.
  - rewrite Hp, Hl, !lastN_length, !length_map. reflexivity.
  - exact Hp.
  - exact Hl.
  - subst samples. rewrite Hp. unfold lastN. simpl length.
    rewrite length_map, H0. reflexivity.
  - subst samples. rewrite Hl. unfold lastN. simpl length.
    rewrite length_map, H0. reflexivity.
  - subst samples. intros Hnd Hin.
    rewrite Hp in Hin. unfold lastN in Hin. simpl length in Hin.
    rewrite length_map, H0 in Hin. simpl in Hin, Hnd.
    inversion Hnd; contradiction.
Qed.

Lemma price_buffer_bounded_fifo_witness :
  let samples := map (fun i => (i, "12:00:00 PM"%string)) (seq 1 51) in
  let c := feed (initial nat) samples in
  priceHistory c = seq 2 50
  /\ length (timeLabels c) = 50
  /\ ~ In 1 (priceHistory c).
Proof.
  intros samples c.
  destruct (price_buffer_bounded_fifo samples) as (_ & _ & _ & _ & H).
  destruct (H (1, "12:00:00 PM"%string) (tl samples)) as (Hp & Hl & Hn).
  - reflexivity.
  - reflexivity.
  - fold c in Hp, Hl, Hn. split; [|split].
    + rewrite Hp. reflexivity.
    + rewrite Hl. reflexivity.
    + apply Hn. change (map fst samples) with (seq 1 51). apply seq_NoDup.
Defined.

(** ** [Math.ceil(n * 0.2)] against the fifth of [n], rounded up *)

Module DoubleFacts.
Import Double.
Local Open Scope Z_scope.

(** From 21 sentences on, the rounded product is a 53-bit significand
    scaled by at least [2^4], and above [2^52] when the scale is [2^4]. *)
Lemma round53_large P :
  21 * mant02 <= P ->
  let (q, s) := round53 P in
  4 <= s /\ 2 ^ 52 <= q /\ (s = 4 -> 2 ^ 52 < q).
Proof.
  intros HP. unfold round53.
  assert (H56 : 2 ^ 56 <= P) by (unfold mant02 in HP; lia).
  assert (Hpos : 0 < P) by lia.
  assert (HL : 56 <= Z.log2 P).
  { rewrite <- (Z.log2_pow2 56) by lia. now apply Z.log2_le_mono. }
  destruct (Z.log2_spec P Hpos) as [Hlo _].
  destruct (Z.leb_spec (Z.log2 P + 1) 53) as [Hb|Hb]; [lia|].
  set (s := Z.log2 P + 1 - 53) in *.
  assert (Hs : 4 <= s) by (unfold s; lia).
  assert (Hpow : 0 < 2 ^ s) by (apply Z.pow_pos_nonneg; lia).
  assert (Hq : 2 ^ 52 <= Z.shiftr P s).
  { rewrite Z.shiftr_div_pow2 by lia.
    apply Z.div_le_lower_bound; [assumption|].
    replace (Z.log2 P) with (s + 52) in Hlo by (unfold s; lia).
    rewrite Z.pow_add_r in Hlo by lia. lia. }
  assert (Hq4 : s = 4 -> 2 ^ 52 < Z.shiftr P s).
  { intros E. rewrite E, Z.shiftr_div_pow2 by lia.
    apply Z.lt_le_trans with (21 * mant02 / 2 ^ 4).
    - vm_compute. reflexivity.
    - apply Z.div_le_mono; [reflexivity | assumption]. }
  destruct (_ || _); repeat split; try assumption; lia.
Qed.

Lemma ceil_large q s :
  4 <= s -> 2 ^ 52 <= q -> (s = 4 -> 2 ^ 52 < q) -> 5 <= ceil (q, s - 54).
Proof.
  intros Hs Hq Hq4. unfold ceil.
  destruct (Z.leb_spec 0 (s - 54)) as [He|He].
  - assert (0 < 2 ^ (s - 54)) by (apply Z.pow_pos_nonneg; lia).
    assert (5 <= 2 ^ 52) by (vm_compute; discriminate).
    nia.
  - set (k := - (s - 54)).
    assert (Hk : 0 < 2 ^ k) by (apply Z.pow_pos_nonneg; unfold k; lia).
    apply Z.div_le_lower_bound; [assumption|].
    assert (B : 4 * 2 ^ k < q).
    { destruct (Z.eq_dec s 4) as [E|E].
      - specialize (Hq4 E). replace k with 50 by (unfold k; lia).
        change (4 * 2 ^ 50) with (2 ^ 52). assumption.
      - apply Z.lt_le_trans with (2 ^ 52); [|assumption].
        change 4 with (2 ^ 2). rewrite <- Z.pow_add_r by (unfold k; lia).
        apply Z.pow_lt_mono_r; unfold k; lia. }
    lia.
Qed.

(** The double-precision computation agrees with exact arithmetic once
    capped at 5. *)
Lemma min5_ceil_timesPoint2 (n : nat) :
  Z.to_nat (Z.min 5 (ceil (timesPoint2 (Z.of_nat n)))) = Nat.min 5 ((n + 4) / 5).
Proof.
  do 21 (destruct n as [|n]; [reflexivity|]).
  assert (HP : 21 * mant02 <= Z.of_nat (21 + n) * mant02).
  { apply Z.mul_le_mono_nonneg_r; [vm_compute; discriminate | lia]. }
  change (S (S (S (S (S (S (S (S (S (S (S (S (S (S (S (S (S (S (S (S (S n)))))))))))))))))))))
    with (21 + n)%nat.
  unfold timesPoint2.
  pose proof (round53_large HP) as R.
  destruct (round53 (Z.of_nat (21 + n) * mant02)) as [q s].
  destruct R as (Hs & Hq & Hq4).
  pose proof (ceil_large Hs Hq Hq4) as C.
  rewrite Z.min_l by assumption.
  assert (5 <= (21 + n + 4) / 5)%nat.
  { apply Nat.div_le_lower_bound; lia. }
  rewrite Nat.min_l by assumption. reflexivity.
Qed.

End DoubleFacts.

(** ** The summarizer *)

Lemma summaryLength_exact sentences :
  summaryLength sentences = Nat.min 5 ((length sentences + 4) / 5).
Proof. apply DoubleFacts.min5_ceil_timesPoint2. Qed.

Lemma generateSummary_long text :
  50 <= length text ->
  generateSummary text =
  Return (mkSummary
            (join (str ". ") (firstn (summaryLength (sentencesOf text)) (sentencesOf text))
             ++ str ".")
            (extractKeyPoints text)
            (length (splitRuns isSpace text))).
Proof.
  intros H. unfold generateSummary.
  destruct text as [|c text]; [simpl in H; lia|].
  destruct (Nat.ltb_spec (length (c :: text)) 50); [lia | reflexivity].
Qed.

(** C4: on a text that is empty or shorter than 50 characters
    [generateSummary] throws its too-short error, and returns no
    [{summary, keyPoints, wordCount}] value at all. *)
Theorem generateSummary_too_short :
  forall text,
    length text < 50 ->
    generateSummary text = Throw (mkError "Transcript too short to generate summary")
    /\ forall r, generateSummary text <> Return r.
Proof.
  intros text H.
  assert (E : generateSummary text = Throw tooShort).
  { unfold generateSummary. destruct text as [|c text]; [reflexivity|].
    destruct (Nat.ltb_spec (length (c :: text)) 50); [reflexivity | lia]. }
  split; [exact E|]. intros r. rewrite E. discriminate.
Qed.

Lemma generateSummary_too_short_witness :
  (generateSummary (str "") = Throw (mkError "Transcript too short to generate summary")
   /\ forall r, generateSummary (str "") <> Return r)
  /\ (generateSummary (str "A transcript of forty-nine characters is short...")
      = Throw (mkError "Transcript too short to generate summary")
      /\ forall r, generateSummary (str "A transcript of forty-nine characters is short...")
                   <> Return r).
Proof.
  split.
  - apply (@generateSummary_too_short (str "")). simpl. lia.
  - apply (@generateSummary_too_short
             (str "A transcript of forty-nine characters is short...")).
    simpl. lia.
Defined.

(** C6: on a text of at least 50 characters [generateSummary] returns,
    and the summary is the first min(5, ceil(n / 5)) sentences joined
    with ". " and followed by a period, where the sentences are the
    fragments between runs of '.', '!' and '?' whose trimmed length is
    above 20 and n is their number. *)
Theorem generateSummary_summary :
  forall text,
    50 <= length text ->
    let sentences :=
      filter (fun s => 20 <? length (trim s)) (splitRuns isSentenceEnd text) in
    let n := length sentences in
    exists r,
      generateSummary text = Return r
      /\ summary r = join (str ". ") (firstn (Nat.min 5 ((n + 4) / 5)) sentences) ++ str ".".
Proof.
  intros text H sentences n.
  eexists. split; [now apply generateSummary_long|].
  simpl. fold sentences. now rewrite summaryLength_exact.
Qed.

Lemma generateSummary_summary_witness :
  exists r,
    generateSummary
      (str "This is the first sentence of the text. And here comes the second sentence! Short? Third sentence is long enough too.")
    = Return r
    /\ summary r = str "This is the first sentence of the text.".
Proof.
  destruct (@generateSummary_summary
              (str "This is the first sentence of the text. And here comes the second sentence! Short? Third sentence is long enough too."))
    as (r & Hr & Hs).
  - simpl. lia.
  - exists r. split; [exact Hr|]. rewrite Hs. reflexivity.
Defined.

(** C10: on a text of at least 50 characters in which no fragment
    between runs of '.', '!' and '?' is longer than 20 characters once
    trimmed, [generateSummary] does not fail: the summary is the single
    character ".", and the key points and the word count are the usual
    ones. *)
Theorem generateSummary_no_sentence :
  forall text,
    50 <= length text ->
    (forall fragment, In fragment (splitRuns isSentenceEnd text) ->
                      length (trim fragment) <= 20) ->
    generateSummary text =
    Return (mkSummary (str ".") (extractKeyPoints text) (length (splitRuns isSpace text))).
Proof.
  intros text H Hshort.
  rewrite generateSummary_long by assumption.
  assert (E : sentencesOf text = []).
  { unfold sentencesOf.
    induction (splitRuns isSentenceEnd text) as [|f fs IH]; [reflexivity|].
    simpl. destruct (Nat.ltb_spec 20 (length (trim f))) as [L|L].
    - specialize (Hshort f (or_introl eq_refl)). lia.
    - apply IH. intros g Hg. apply Hshort. now right. }
  rewrite E. reflexivity.
Qed.

Lemma generateSummary_no_sentence_witness :
  generateSummary (str "One. Two! Three? Four. Five. Six. Seven. Eight. Nine. Ten.") =
  Return (mkSummary (str ".")
                    (map str ["three"; "seven"; "eight"]%string)
                    10).
Proof.
  rewrite (@generateSummary_no_sentence
             (str "One. Two! Three? Four. Five. Six. Seven. Eight. Nine. Ten.")).
  - reflexivity.
  - simpl. lia.
  - intros fragment Hin. vm_compute in Hin.
    repeat (destruct Hin as [<-|Hin]; [vm_compute; lia|]).
    destruct Hin.
Defined.

(** ** The transcript fallback chain *)

Unset Implicit Arguments.

Section FetchFacts.
Variable network : list jsstring -> jsstring -> FetchResult.
Variable textElements : jsstring -> list jsstring.
Variable parseJSON : jsstring -> option JSON.

Lemma attempt_rejected url w e :
  network (requests w) url = Rejected e ->
  attempt network textElements url w = (Throw e, recordRequest url w).
Proof.
  intros H. unfold attempt, bind, fetch. now rewrite H.
Qed.

Lemma attempt_not_ok url w r :
  network (requests w) url = Responded r -> ok r = false ->
  attempt network textElements url w = (Return None, recordRequest url w).
Proof.
  intros H Hok. unfold attempt, bind, fetch. now rewrite H, Hok.
Qed.

Lemma attempt_unreadable url w r e :
  network (requests w) url = Responded r -> ok r = true -> body r = Throw e ->
  attempt network textElements url w = (Throw e, recordRequest url w).
Proof.
  intros H Hok Hb. unfold attempt, bind, fetch, text, lift.
  now rewrite H, Hok, Hb.
Qed.

Lemma attempt_parsed url w r xml :
  network (requests w) url = Responded r -> ok r = true -> body r = Return xml ->
  attempt network textElements url w =
  (Return (if 50 <? length (parseYouTubeTranscriptXML textElements xml) then Some (parseYouTubeTranscriptXML textElements xml) else None),
   recordRequest url w).
Proof.
  intros H Hok Hb. unfold attempt, bind, fetch, text, lift.
  rewrite H, Hok, Hb.
  destruct (parseYouTubeTranscriptXML textElements xml) as [|c t] eqn:E; [reflexivity|].
  now destruct (50 <? length (c :: t)).
Qed.

Lemma strategy_accepts url line w r xml :
  network (requests w) url = Responded r -> ok r = true -> body r = Return xml ->
  50 < length (parseYouTubeTranscriptXML textElements xml) ->
  strategy network textElements url line w = (Return (Some (parseYouTubeTranscriptXML textElements xml)), recordRequest url w).
Proof.
  intros H Hok Hb Hlen. unfold strategy, tryCatch.
  rewrite attempt_parsed with (r := r) (xml := xml) by assumption.
  destruct (Nat.ltb_spec 50 (length (parseYouTubeTranscriptXML textElements xml))); [reflexivity | lia].
Qed.

Lemma strategy_fails url line w :
  strategyFails textElements (network (requests w) url) ->
  exists w', strategy network textElements url line w = (Return None, w')
             /\ requests w' = requests w ++ [url]
             /\ page w' = page w.
Proof.
  unfold strategyFails, strategy, tryCatch. intros H.
  destruct (network (requests w) url) as [e|r] eqn:E.
  - rewrite attempt_rejected with (e := e) by assumption. eexists; split; [reflexivity|]. now split.
  - destruct (ok r) eqn:Hok.
    + destruct H as [H|[[e H]|(xml & Hb & Hlen)]]; [discriminate| |].
      * rewrite attempt_unreadable with (r := r) (e := e) by assumption.
        eexists; split; [reflexivity|]. now split.
      * rewrite attempt_parsed with (r := r) (xml := xml) by assumption.
        destruct (Nat.ltb_spec 50 (length (parseYouTubeTranscriptXML textElements xml))); [lia|].
        eexists; split; [reflexivity|]. now split.
    + rewrite attempt_not_ok with (r := r) by assumption.
      eexists; split; [reflexivity|]. now split.
Qed.

(** Whatever the network does, a strategy returns: a transcript of
    more than 50 characters, or nothing. *)
Lemma strategy_total url line w :
  exists res w', strategy network textElements url line w = (Return res, w')
                 /\ requests w' = requests w ++ [url]
                 /\ page w' = page w
                 /\ (forall t, res = Some t -> 50 < length t).
Proof.
  unfold strategy, tryCatch.
  destruct (network (requests w) url) as [e|r] eqn:E.
  - rewrite attempt_rejected with (e := e) by assumption.
    eexists _, _; split; [reflexivity|]. repeat split; discriminate.
  - destruct (ok r) eqn:Hok.
    + destruct (body r) as [xml|e] eqn:Hb.
      * rewrite attempt_parsed with (r := r) (xml := xml) by assumption.
        eexists _, _; split; [reflexivity|]. repeat split.
        intros t. destruct (Nat.ltb_spec 50 (length (parseYouTubeTranscriptXML textElements xml))); [|discriminate].
        now intros [= <-].
      * rewrite attempt_unreadable with (r := r) (e := e) by assumption.
        eexists _, _; split; [reflexivity|]. repeat split; discriminate.
    + rewrite attempt_not_ok with (r := r) by assumption.
      eexists _, _; split; [reflexivity|]. repeat split; discriminate.
Qed.
End FetchFacts.

Section ChainFacts.
Variable network : list jsstring -> jsstring -> FetchResult.
Variable textElements : jsstring -> list jsstring.

Lemma getYouTubeTranscript_chain videoId :
  getYouTubeTranscript network textElements videoId =
  (r1 <- strategy network textElements (timedtextUrl videoId)
           "Direct API call failed, trying proxy..." ;;
   match r1 with
   | Some transcript => ret transcript
   | None =>
       r2 <- strategy network textElements (codetabsUrl videoId)
               "Proxy method failed, trying alternative..." ;;
       match r2 with
       | Some transcript => ret transcript
       | None =>
           r3 <- strategy network textElements (corsAnywhereUrl videoId)
                   "Alternative proxy failed" ;;
           match r3 with
           | Some transcript => ret transcript
           | None => throw transcriptUnavailable
           end
       end
   end).
Proof. reflexivity. Qed.

Lemma getYouTubeTranscript_first videoId w r xml :
  network (requests w) (timedtextUrl videoId) = Responded r ->
  ok r = true -> body r = Return xml ->
  50 < length (parseYouTubeTranscriptXML textElements xml) ->
  getYouTubeTranscript network textElements videoId w
  = (Return (parseYouTubeTranscriptXML textElements xml),
     recordRequest (timedtextUrl videoId) w).
Proof.
  intros H Hok Hb Hlen. rewrite getYouTubeTranscript_chain. unfold bind.
  rewrite strategy_accepts with (r := r) (xml := xml) by assumption.
  reflexivity.
Qed.

Lemma getYouTubeTranscript_exhausted videoId w :
  strategyFails textElements (network (requests w) (timedtextUrl videoId)) ->
  strategyFails textElements
    (network (requests w ++ [timedtextUrl videoId]) (codetabsUrl videoId)) ->
  strategyFails textElements
    (network (requests w ++ [timedtextUrl videoId; codetabsUrl videoId])
             (corsAnywhereUrl videoId)) ->
  exists w',
    getYouTubeTranscript network textElements videoId w = (Throw transcriptUnavailable, w')
    /\ requests w' = requests w ++ [timedtextUrl videoId; codetabsUrl videoId;
                                    corsAnywhereUrl videoId].
Proof.
  intros F1 F2 F3. rewrite getYouTubeTranscript_chain. unfold bind.
  destruct (strategy_fails network textElements _ "Direct API call failed, trying proxy..." w F1)
    as (w1 & -> & Hr1 & _).
  rewrite <- Hr1 in F2.
  destruct (strategy_fails network textElements _ "Proxy method failed, trying alternative..." w1 F2)
    as (w2 & -> & Hr2 & _).
  replace (requests w ++ [timedtextUrl videoId; codetabsUrl videoId])
    with (requests w2) in F3
    by (rewrite Hr2, Hr1, <- app_assoc; reflexivity).
  destruct (strategy_fails network textElements _ "Alternative proxy failed" w2 F3)
    as (w3 & -> & Hr3 & _).
  exists w3. split; [reflexivity|].
  rewrite Hr3, Hr2, Hr1, <- !app_assoc. reflexivity.
Qed.

(** The only error of the chain is the aggregated one; a returned
    transcript has more than 50 characters. *)
Lemma getYouTubeTranscript_outcome videoId w :
  exists w',
    page w' = page w
    /\ ((exists t, getYouTubeTranscript network textElements videoId w = (Return t, w')
                   /\ 50 < length t)
        \/ getYouTubeTranscript network textElements videoId w
           = (Throw transcriptUnavailable, w')).
Proof.
  rewrite getYouTubeTranscript_chain. unfold bind.
  destruct (strategy_total network textElements (timedtextUrl videoId)
              "Direct API call failed, trying proxy..." w)
    as (r1 & w1 & -> & _ & Hp1 & Ht1).
  destruct r1 as [t|].
  { exists w1. split; [assumption|]. left. exists t. split; [reflexivity | now apply Ht1]. }
  destruct (strategy_total network textElements (codetabsUrl videoId)
              "Proxy method failed, trying alternative..." w1)
    as (r2 & w2 & -> & _ & Hp2 & Ht2).
  destruct r2 as [t|].
  { exists w2. split; [congruence|]. left. exists t. split; [reflexivity | now apply Ht2]. }
  destruct (strategy_total network textElements (corsAnywhereUrl videoId)
              "Alternative proxy failed" w2)
    as (r3 & w3 & -> & _ & Hp3 & Ht3).
  destruct r3 as [t|].
  { exists w3. split; [congruence|]. left. exists t. split; [reflexivity | now apply Ht3]. }
  exists w3. split; [congruence|]. now right.
Qed.
End ChainFacts.

(** C1 (as amended): when the first strategy of [getYouTubeTranscript]
    succeeds and the transcript parsed from it has more than 50
    characters, the function returns that transcript after this one
    request: the request log grows by the direct URL only and the
    console is untouched, so strategies 2 and 3 are not invoked. *)
Theorem transcript_short_circuit :
  forall network textElements videoId w r xml,
    network (requests w) (timedtextUrl videoId) = Responded r ->
    ok r = true ->
    body r = Return xml ->
    50 < length (parseYouTubeTranscriptXML textElements xml) ->
    let result := getYouTubeTranscript network textElements videoId w in
    fst result = Return (parseYouTubeTranscriptXML textElements xml)
    /\ requests (snd result) = requests w ++ [timedtextUrl videoId]
    /\ console (snd result) = console w.
Proof.
  intros network textElements videoId w r xml H Hok Hb Hlen result.
  unfold result.
  rewrite getYouTubeTranscript_first with (r := r) (xml := xml) by assumption.
  repeat split.
Qed.

Lemma transcript_short_circuit_witness :
  let result := getYouTubeTranscript (onlyDirect lyricsXml) sampleTextElements
                                     sampleId freshWorld in
  fst result
  = Return (str "Never gonna give you up, never gonna let you down, never gonna run around.")
  /\ requests (snd result) = [str "https://www.youtube.com/api/timedtext?lang=en&v=dQw4w9WgXcQ"]
  /\ console (snd result) = [].
Proof.
  apply (transcript_short_circuit (onlyDirect lyricsXml) sampleTextElements sampleId
           freshWorld (mkResponse true (Return lyricsXml)) lyricsXml).
  - reflexivity.
  - reflexivity.
  - reflexivity.
  - vm_compute. lia.
Defined.

(** C1 as stated fails at exactly 50 characters: the first strategy
    succeeds with a transcript of length 50, yet the function does not
    return it and goes on to request both proxies. *)
Lemma transcript_of_50_not_accepted :
  let result := getYouTubeTranscript (onlyDirect fiftyXml) sampleTextElements
                                     sampleId freshWorld in
  onlyDirect fiftyXml (requests freshWorld) (timedtextUrl sampleId)
  = Responded (mkResponse true (Return fiftyXml))
  /\ parseYouTubeTranscriptXML sampleTextElements fiftyXml = fiftyChars
  /\ length fiftyChars = 50
  /\ fst result <> Return fiftyChars
  /\ requests (snd result)
     = [str "https://www.youtube.com/api/timedtext?lang=en&v=dQw4w9WgXcQ";
        str "https://api.codetabs.com/v1/proxy?quest=https%3A%2F%2Fwww.youtube.com%2Fapi%2Ftimedtext%3Flang%3Den%26v%3DdQw4w9WgXcQ";
        str "https://cors-anywhere.herokuapp.com/https://www.youtube.com/api/timedtext?lang=en&v=dQw4w9WgXcQ"].
Proof.
  repeat split; try reflexivity.
  vm_compute. discriminate.
Qed.

(** C3: when each of the three strategies of [getYouTubeTranscript]
    fails or yields a transcript that is not accepted, the function
    throws the one aggregated error with its guidance text, after the
    three requests; and whatever the network does, the function never
    throws any other error. *)
Theorem transcript_unavailable_when_all_fail :
  forall network textElements videoId w,
    (strategyFails textElements (network (requests w) (timedtextUrl videoId)) ->
     strategyFails textElements
       (network (requests w ++ [timedtextUrl videoId]) (codetabsUrl videoId)) ->
     strategyFails textElements
       (network (requests w ++ [timedtextUrl videoId; codetabsUrl videoId])
                (corsAnywhereUrl videoId)) ->
     let result := getYouTubeTranscript network textElements videoId w in
     fst result
     = Throw (mkError "Unable to fetch transcript due to CORS restrictions. Please set up a backend service (see README.md) or use a browser extension that disables CORS. Alternatively, ensure the video has captions enabled.")
     /\ requests (snd result)
        = requests w ++ [timedtextUrl videoId; codetabsUrl videoId; corsAnywhereUrl videoId])
    /\ (forall e, fst (getYouTubeTranscript network textElements videoId w) = Throw e ->
                  e = transcriptUnavailable).
Proof.
  intros network textElements videoId w. split.
  - intros F1 F2 F3 result. unfold result.
    destruct (getYouTubeTranscript_exhausted network textElements videoId w F1 F2 F3)
      as (w' & -> & Hr).
    split; [reflexivity | exact Hr].
  - intros e He.
    destruct (getYouTubeTranscript_outcome network textElements videoId w)
      as (w' & _ & [(t & E & _)|E]); rewrite E in He; simpl in He.
    + discriminate.
    + now injection He as <-.
Qed.

Lemma transcript_unavailable_when_all_fail_witness :
  let result := getYouTubeTranscript offline sampleTextElements sampleId freshWorld in
  fst result = Throw transcriptUnavailable
  /\ length (requests (snd result)) = 3.
Proof.
  intros result.
  destruct (transcript_unavailable_when_all_fail offline sampleTextElements
              sampleId freshWorld) as [H _].
  destruct H as [H1 H2]; try exact I.
  fold result in H1, H2. split.
  - rewrite H1. reflexivity.
  - rewrite H2. reflexivity.
Defined.

(** ** The metadata request *)

Section MetadataFacts.
Variable network : list jsstring -> jsstring -> FetchResult.
Variable parseJSON : jsstring -> option JSON.

Lemma getField_total data name w :
  (exists v, getField data name w = (Return v, w))
  \/ (exists e, getField data name w = (Throw e, w)).
Proof.
  destruct data; simpl; unfold ret, throw; eauto.
Qed.

(** The function always returns; the world gains the request (and a
    console line when the fallback is used), the page is untouched;
    a failed request gives the fallback record. *)
Lemma getYouTubeVideoInfo_returns videoId w :
  exists info w',
    getYouTubeVideoInfo network parseJSON videoId w = (Return info, w')
    /\ requests w' = requests w ++ [oEmbedUrl videoId]
    /\ page w' = page w
    /\ (metadataFails parseJSON (network (requests w) (oEmbedUrl videoId)) ->
        info = fallbackInfo).
Proof.
  unfold getYouTubeVideoInfo, tryCatch, bind, fetch, json, text, lift, metadataFails.
  destruct (network (requests w) (oEmbedUrl videoId)) as [e|r].
  { eexists _, _. split; [reflexivity|]. repeat split. }
  destruct (ok r); cbn -[getField log oEmbedUrl recordRequest str].
  2:{ eexists _, _. split; [reflexivity|]. repeat split. }
  destruct (body r) as [s|e].
  2:{ eexists _, _. split; [reflexivity|]. repeat split. }
  destruct (parseJSON s) as [data|] eqn:Ep;
    cbn -[getField log oEmbedUrl recordRequest str].
  2:{ eexists _, _. split; [reflexivity|]. repeat split. }
  destruct (getField_total data (str "title") (recordRequest (oEmbedUrl videoId) w))
    as [[t ->]|[e ->]].
  2:{ eexists _, _. split; [reflexivity|]. repeat split. }
  destruct (getField_total data (str "author_name") (recordRequest (oEmbedUrl videoId) w))
    as [[a ->]|[e ->]].
  2:{ eexists _, _. split; [reflexivity|]. repeat split. }
  destruct (getField_total data (str "thumbnail_url") (recordRequest (oEmbedUrl videoId) w))
    as [[th ->]|[e ->]].
  2:{ eexists _, _. split; [reflexivity|]. repeat split. }
  eexists _, _. split; [reflexivity|]. repeat split.
  intros [H|[[e H]|(s' & H & Hs)]]; try discriminate.
  injection H as <-. congruence.
Qed.
End MetadataFacts.

(** ** The page driver on a YouTube URL *)

Section DriverFacts.
Variable network : list jsstring -> jsstring -> FetchResult.
Variable textElements : jsstring -> list jsstring.
Variable parseJSON : jsstring -> option JSON.

(** On an accepted URL the driver asks for the metadata, then for the
    transcript, and ends either with the results on the page or with
    the message of the aggregated transcript error. *)
Lemma summarizeContent_youtube url videoId w :
  isValidYouTubeURL url = true ->
  extractYouTubeVideoId url = Some videoId ->
  exists info w1 w2,
    getYouTubeVideoInfo network parseJSON videoId (started w) = (Return info, w1)
    /\ ((exists t sd,
            getYouTubeTranscript network textElements videoId (fetching w1)
            = (Return t, w2)
            /\ generateSummary t = Return sd
            /\ summarizeContent network textElements parseJSON url w
               = (Return tt,
                  mkWorld (requests w2) (console w2)
                    (mkPage "none" "block" "none" (errorMessage_text (page w))
                            "Generating summary..."
                            (Some (mkDisplay (Some info) sd t)))))
        \/ (getYouTubeTranscript network textElements videoId (fetching w1)
            = (Throw transcriptUnavailable, w2)
            /\ summarizeContent network textElements parseJSON url w
               = (Return tt,
                  mkWorld (requests w2)
                    (console w2 ++ ["Error: " ++ message transcriptUnavailable]%string)
                    (mkPage "none" "none" "block"
                            ("Error: " ++ message transcriptUnavailable)%string
                            "Fetching transcript..." (displayed (page w)))))).
Proof.
  intros Hvalid Hid.
  destruct (extract_some_id url Hid) as [Hlen _].
  destruct (getYouTubeVideoInfo_returns network parseJSON videoId (started w))
    as (info & w1 & Einfo & _ & Hpage1 & _).
  destruct (getYouTubeTranscript_outcome network textElements videoId (fetching w1))
    as (w2 & Hpage2 & Hres).
  exists info, w1, w2. split; [exact Einfo|].
  assert (Hrun : forall res,
             getYouTubeTranscript network textElements videoId (fetching w1) = (res, w2) ->
             summarizeContent network textElements parseJSON url w
             = tryFinally
                 (tryCatch
                    (got <- (fun w' => match res with
                                       | Return t =>
                                           match t with
                                           | [] => (Throw noTranscript, w2)
                                           | _ => if length t <? 50
                                                  then (Throw noTranscript, w2)
                                                  else (Return (Some info, t), w2)
                                           end
                                       | Throw e => (Throw e, w2)
                                       end) ;;
                     let (videoInfo, transcript) := got in
                     onPage (set_loadingStatus_text "Generating summary...") ;;;
                     summaryData <- lift (generateSummary transcript) ;;
                     displayResults videoInfo summaryData transcript)
                    (fun error =>
                       log ("Error: " ++ message error)%string ;;;
                       onPage (fun p => set_errorMessage_display "block"
                                 (set_errorMessage_text ("Error: " ++ message error)%string p))))
                 (fun w => mkWorld (requests w) (console w)
                                   (set_loadingSection_display "none" (page w)))
                 w).
  { intros res Eres.
    unfold summarizeContent. rewrite Hvalid.
    unfold fetchYouTube. rewrite Hid.
    destruct videoId as [|c videoId]; [discriminate|].
    unfold bind at 1, onPage at 1, modify at 1.
    unfold tryFinally, tryCatch.
    unfold bind at 1. unfold bind at 1, onPage at 1, modify at 1.
    unfold bind at 1.
    change (mkWorld _ _ _) with (started w) at 1.
    rewrite Einfo.
    unfold bind at 1, onPage at 1, modify at 1. unfold bind at 1.
    change (mkWorld _ _ _) with (fetching w1) at 1.
    rewrite Eres. unfold bind at 1.
    destruct res as [t|e]; [|reflexivity].
    destruct t as [|c' t]; [reflexivity|].
    destruct (length (c' :: t) <? 50); reflexivity. }
  destruct Hres as [(t & Et & Ht)|Et]; [left | right].
  - destruct (generateSummary t) as [sd|e] eqn:Egen.
    2:{ rewrite generateSummary_long in Egen by lia. discriminate. }
    exists t, sd. split; [exact Et|]. split; [exact Egen|].
    rewrite (Hrun _ Et).
    destruct t as [|c t]; [simpl in Ht; lia|].
    destruct (Nat.ltb_spec (length (c :: t)) 50) as [L|L]; [lia|].
    unfold tryFinally, tryCatch, bind, onPage, modify, lift, displayResults.
    rewrite Egen. cbn. rewrite Hpage2. cbn. rewrite Hpage1. reflexivity.
  - split; [exact Et|].
    rewrite (Hrun _ Et).
    unfold tryFinally, tryCatch, bind, onPage, modify, log.
    cbn. rewrite Hpage2. cbn. rewrite Hpage1. reflexivity.
Qed.
End DriverFacts.

Section PipelineFacts.
Variable network : list jsstring -> jsstring -> FetchResult.
Variable textElements : jsstring -> list jsstring.
Variable parseJSON : jsstring -> option JSON.

(** With the metadata request failed and the direct transcript
    accepted, the page shows the results with the fallback record. *)
Lemma summarizeContent_with_fallback url videoId w r xml :
  isValidYouTubeURL url = true ->
  extractYouTubeVideoId url = Some videoId ->
  metadataFails parseJSON (network (requests w) (oEmbedUrl videoId)) ->
  network (requests w ++ [oEmbedUrl videoId]) (timedtextUrl videoId) = Responded r ->
  ok r = true ->
  body r = Return xml ->
  50 < length (parseYouTubeTranscriptXML textElements xml) ->
  exists sd w2,
    generateSummary (parseYouTubeTranscriptXML textElements xml) = Return sd
    /\ requests w2 = requests w ++ [oEmbedUrl videoId; timedtextUrl videoId]
    /\ summarizeContent network textElements parseJSON url w
       = (Return tt,
          mkWorld (requests w2) (console w2)
            (mkPage "none" "block" "none" (errorMessage_text (page w))
                    "Generating summary..."
                    (Some (mkDisplay (Some fallbackInfo) sd
                                     (parseYouTubeTranscriptXML textElements xml))))).
Proof.
  intros Hvalid Hid Hmeta Hnet Hok Hbody Hlen.
  destruct (summarizeContent_youtube network textElements parseJSON url videoId w
              Hvalid Hid) as (info & w1 & w2 & Einfo & Hrun).
  destruct (getYouTubeVideoInfo_returns network parseJSON videoId (started w))
    as (info' & w1' & Einfo' & Hreq1 & _ & Hfallback).
  rewrite Einfo in Einfo'. injection Einfo' as <- <-.
  specialize (Hfallback Hmeta). subst info.
  simpl in Hreq1.
  assert (Hnet' : network (requests (fetching w1)) (timedtextUrl videoId) = Responded r).
  { simpl. now rewrite Hreq1. }
  pose proof (getYouTubeTranscript_first network textElements videoId (fetching w1)
                r xml Hnet' Hok Hbody Hlen) as Efirst.
  destruct Hrun as [(t & sd & Et & Egen & Erun)|[Et _]].
  - rewrite Efirst in Et. injection Et as <- <-.
    exists sd, (recordRequest (timedtextUrl videoId) (fetching w1)).
    split; [exact Egen|]. split; [|exact Erun].
    simpl. rewrite Hreq1, <- app_assoc. reflexivity.
  - rewrite Efirst in Et. discriminate.
Qed.
End PipelineFacts.

(** C8: [getYouTubeVideoInfo] never throws; when its request fails
    (network error, response not ok, unreadable or malformed body) it
    returns exactly the fallback record; and such a failure does not stop
    [summarizeContent]: the transcript is requested next and, once it is
    accepted, the results are shown with the fallback record and no error
    message. *)
Theorem metadata_failure_not_fatal :
  forall network textElements parseJSON videoId w,
    (exists info, fst (getYouTubeVideoInfo network parseJSON videoId w) = Return info)
    /\ (metadataFails parseJSON (network (requests w) (oEmbedUrl videoId)) ->
        fst (getYouTubeVideoInfo network parseJSON videoId w)
        = Return (mkVideoInfo (Some (JStr (str "Video"))) (Some (JStr (str "Unknown")))
                              (Some JNull))
        /\ forall url r xml,
            isValidYouTubeURL url = true ->
            extractYouTubeVideoId url = Some videoId ->
            network (requests w ++ [oEmbedUrl videoId]) (timedtextUrl videoId)
            = Responded r ->
            ok r = true ->
            body r = Return xml ->
            50 < length (parseYouTubeTranscriptXML textElements xml) ->
            let result := summarizeContent network textElements parseJSON url w in
            exists sd,
              generateSummary (parseYouTubeTranscriptXML textElements xml) = Return sd
              /\ fst result = Return tt
              /\ requests (snd result)
                 = requests w ++ [oEmbedUrl videoId; timedtextUrl videoId]
              /\ displayed (page (snd result))
                 = Some (mkDisplay (Some fallbackInfo) sd
                                   (parseYouTubeTranscriptXML textElements xml))
              /\ resultsSection_display (page (snd result)) = "block"%string
              /\ errorMessage_display (page (snd result)) = "none"%string).
Proof.
  intros network textElements parseJSON videoId w.
  destruct (getYouTubeVideoInfo_returns network parseJSON videoId w)
    as (info & w' & E & _ & _ & Hfallback).
  split.
  - exists info. now rewrite E.
  - intros Hmeta. split.
    + rewrite E. simpl. now rewrite (Hfallback Hmeta).
    + intros url r xml Hvalid Hid Hnet Hok Hbody Hlen result.
      destruct (summarizeContent_with_fallback network textElements parseJSON
                  url videoId w r xml Hvalid Hid Hmeta Hnet Hok Hbody Hlen)
        as (sd & w2 & Egen & Hreq & Erun).
      exists sd. unfold result. rewrite Erun. simpl.
      repeat split; assumption.
Qed.

Lemma metadata_failure_not_fatal_witness :
  let result := summarizeContent (onlyDirect lyricsXml) sampleTextElements noJSON
                  (str "https://www.youtube.com/watch?v=dQw4w9WgXcQ") freshWorld in
  fst (getYouTubeVideoInfo (onlyDirect lyricsXml) noJSON sampleId freshWorld)
  = Return fallbackInfo
  /\ option_map shownInfo (displayed (page (snd result))) = Some (Some fallbackInfo)
  /\ errorMessage_display (page (snd result)) = "none"%string.
Proof.
  intros result.
  destruct (metadata_failure_not_fatal (onlyDirect lyricsXml) sampleTextElements noJSON
              sampleId freshWorld) as [_ H].
  destruct H as [Hinfo Hrun]; [exact I|].
  destruct (Hrun (str "https://www.youtube.com/watch?v=dQw4w9WgXcQ")
                 (mkResponse true (Return lyricsXml)) lyricsXml)
    as (sd & _ & _ & _ & Hshown & _ & Herr);
    try reflexivity.
  - vm_compute. lia.
  - fold result in Hshown, Herr. split; [exact Hinfo|]. split; [|exact Herr].
    rewrite Hshown. reflexivity.
Defined.

(** C9: every URL that [isValidYouTubeURL] accepts has a video id for
    [extractYouTubeVideoId], an id of 11 characters; so on such a URL
    [summarizeContent] never ends with the page showing the message of
    its invalid-format error. *)
Theorem accepted_url_has_video_id :
  forall url,
    isValidYouTubeURL url = true ->
    (exists videoId,
        extractYouTubeVideoId url = Some videoId
        /\ length videoId = 11
        /\ forallb isIdChar videoId = true)
    /\ forall network textElements parseJSON w,
        let w' := snd (summarizeContent network textElements parseJSON url w) in
        ~ (errorMessage_display (page w') = "block"%string
           /\ errorMessage_text (page w') = "Error: Invalid YouTube URL format"%string).
Proof.
  intros url Hvalid.
  destruct (valid_extracts url Hvalid) as [videoId Hid].
  destruct (extract_some_id url Hid) as [Hlen Hchars].
  split; [now exists videoId|].
  intros network textElements parseJSON w w'. unfold w'.
  destruct (summarizeContent_youtube network textElements parseJSON url videoId w
              Hvalid Hid) as (info & w1 & w2 & _ & [(t & sd & _ & _ & ->)|[_ ->]]);
    simpl; intros [Hd Ht]; discriminate.
Qed.

Lemma accepted_url_has_video_id_witness :
  extractYouTubeVideoId (str "https://youtu.be/dQw4w9WgXcQ?t=42") = Some sampleId
  /\ errorMessage_text
       (page (snd (summarizeContent offline sampleTextElements noJSON
                     (str "https://youtu.be/dQw4w9WgXcQ?t=42") freshWorld)))
     <> "Error: Invalid YouTube URL format"%string.
Proof.
  destruct (accepted_url_has_video_id (str "https://youtu.be/dQw4w9WgXcQ?t=42"))
    as [(videoId & Hid & _) Hrun].
  - reflexivity.
  - split.
    + reflexivity.
    + intros H.
      apply (Hrun offline sampleTextElements noJSON freshWorld).
      split; [reflexivity | exact H].
Defined.

(** ** Key points *)

(** C5 (the code departs from it): on a transcript in which the word
    "constructor" occurs twice and every other keyword once, the claim
    puts "constructor" first; [extractKeyPoints] leaves it in third
    place, because [wordFreq] is an ordinary object and the count of
    "constructor" starts from the inherited [Object] function instead of
    zero. *)
Theorem extractKeyPoints_constructor :
  keywordTokens constructorText
  = map str ["calls"; "parent"; "constructor"; "before"; "child"; "constructor"]%string
  /\ frequency (keywordTokens constructorText) (str "constructor") = 2
  /\ frequency (keywordTokens constructorText) (str "calls") = 1
  /\ topKeywords constructorText
     = map str ["constructor"; "calls"; "parent"; "before"; "child"]%string
  /\ extractKeyPoints constructorText
     = map str ["calls"; "parent"; "constructor"; "before"; "child"]%string
  /\ (exists r, generateSummary constructorText = Return r
                /\ keyPoints r
                   = map str ["calls"; "parent"; "constructor"; "before"; "child"]%string).
Proof.
  repeat split; try reflexivity.
  eexists. split; reflexivity.
Qed.

(** *** Strings as keys *)

Lemma eqb_eq a b : JSString.eqb a b = true <-> a = b.
Proof.
  revert b; induction a as [|x a IH]; intros [|y b]; simpl; split;
    try discriminate; try reflexivity.
  - intros H. apply andb_true_iff in H as [Hx Ha].
    apply Ascii.eqb_eq in Hx. apply IH in Ha. congruence.
  - intros [= -> ->]. rewrite Ascii.eqb_refl. now apply IH.
Qed.

Lemma eqb_refl a : JSString.eqb a a = true.
Proof. now apply eqb_eq. Qed.

Lemma eqb_neq a b : JSString.eqb a b = false <-> a <> b.
Proof.
  split.
  - intros H E. apply eqb_eq in E. congruence.
  - intros H. destruct (JSString.eqb a b) eqn:E; [|reflexivity].
    apply eqb_eq in E. contradiction.
Qed.

Lemma eqb_sym a b : JSString.eqb a b = JSString.eqb b a.
Proof.
  destruct (JSString.eqb b a) eqn:E.
  - apply eqb_eq in E. subst. apply eqb_refl.
  - apply eqb_neq in E. apply eqb_neq. congruence.
Qed.

Lemma existsb_eqb_In t l : existsb (JSString.eqb t) l = true <-> In t l.
Proof.
  rewrite existsb_exists. split.
  - intros (x & Hx & E). apply eqb_eq in E. now subst.
  - intros H. exists t. split; [assumption | apply eqb_refl].
Qed.

(** *** Frequencies and first occurrences *)

Lemma frequency_snoc tokens t k :
  frequency (tokens ++ [t]) k
  = frequency tokens k + (if JSString.eqb k t then 1 else 0).
Proof.
  unfold frequency. rewrite filter_app, length_app. simpl.
  now destruct (JSString.eqb k t).
Qed.

Lemma frequency_absent tokens t : ~ In t tokens -> frequency tokens t = 0.
Proof.
  unfold frequency. induction tokens as [|x r IH]; simpl; [reflexivity|].
  intros H. destruct (JSString.eqb t x) eqn:E.
  - apply eqb_eq in E. subst. tauto.
  - apply IH. tauto.
Qed.

Lemma frequency_present tokens t : In t tokens -> 0 < frequency tokens t.
Proof.
  unfold frequency. induction tokens as [|x r IH]; simpl; [tauto|].
  intros [->|H].
  - rewrite eqb_refl. simpl. lia.
  - destruct (JSString.eqb t x); simpl; [lia | now apply IH].
Qed.

Lemma distinct_In tokens t : In t (distinct tokens) <-> In t tokens.
Proof.
  induction tokens as [|x r IH]; simpl; [tauto|].
  rewrite filter_In, IH. split.
  - tauto.
  - intros [->|H]; [now left|].
    destruct (JSString.eqb t x) eqn:E.
    + apply eqb_eq in E. now left.
    + right. split; [assumption | reflexivity].
Qed.

Lemma distinct_NoDup tokens : NoDup (distinct tokens).
Proof.
  induction tokens as [|x r IH]; simpl; constructor.
  - rewrite filter_In. intros [_ H]. now rewrite eqb_refl in H.
  - now apply NoDup_filter.
Qed.

Lemma distinct_snoc tokens t :
  distinct (tokens ++ [t])
  = if existsb (JSString.eqb t) tokens then distinct tokens else distinct tokens ++ [t].
Proof.
  induction tokens as [|x r IH]; simpl; [reflexivity|].
  rewrite IH. destruct (JSString.eqb t x) eqn:E; simpl.
  - destruct (existsb (JSString.eqb t) r); [reflexivity|].
    rewrite filter_app. simpl. rewrite E. simpl. now rewrite app_nil_r.
  - destruct (existsb (JSString.eqb t) r); [reflexivity|].
    rewrite filter_app. simpl. now rewrite E.
Qed.

(** *** The table of counts *)

Lemma bump_closed keys (f : jsstring -> nat) t :
  NoDup keys ->
  bump (map (fun k => (k, f k)) keys) t
  = if existsb (JSString.eqb t) keys
    then map (fun k => (k, f k + (if JSString.eqb k t then 1 else 0))) keys
    else map (fun k => (k, f k)) keys ++ [(t, 1)].
Proof.
  induction keys as [|k keys IH]; simpl; [reflexivity|].
  intros Hnd. inversion Hnd as [|? ? Hk Hkeys]; subst.
  rewrite (eqb_sym t k). destruct (JSString.eqb k t) eqn:E; simpl.
  - f_equal. apply map_ext_in. intros k' Hk'.
    apply eqb_eq in E. subst t.
    assert (N : JSString.eqb k' k = false) by (apply eqb_neq; congruence).
    now rewrite N, Nat.add_0_r.
  - rewrite (IH Hkeys). rewrite Nat.add_0_r.
    now destruct (existsb (JSString.eqb t) keys).
Qed.

(** The table lists the distinct tokens in the order of their first
    occurrence, each with its frequency. *)
Lemma tally_closed tokens :
  tally tokens = map (fun k => (k, frequency tokens k)) (distinct tokens).
Proof.
  unfold tally. induction tokens as [|t tokens IH] using rev_ind; [reflexivity|].
  rewrite fold_left_app. simpl. rewrite IH.
  rewrite bump_closed by apply distinct_NoDup.
  rewrite distinct_snoc.
  assert (M : existsb (JSString.eqb t) (distinct tokens)
              = existsb (JSString.eqb t) tokens).
  { apply eq_true_iff_eq. rewrite !existsb_eqb_In. apply distinct_In. }
  rewrite M. destruct (existsb (JSString.eqb t) tokens) eqn:Ein.
  - apply map_ext. intros k. now rewrite frequency_snoc.
  - assert (Hout : ~ In t tokens).
    { intros H. apply existsb_eqb_In in H. congruence. }
    rewrite map_app. simpl. f_equal.
    + apply map_ext_in. intros k Hk. rewrite frequency_snoc.
      assert (N : JSString.eqb k t = false).
      { apply eqb_neq. intros ->. apply Hout. now apply distinct_In. }
      now rewrite N, Nat.add_0_r.
    + rewrite frequency_snoc, eqb_refl, (frequency_absent _ _ Hout). reflexivity.
Qed.

(** *** The object against the table, on plain keys *)

Lemma countWord_asNumber table t :
  plainKey t = true ->
  countWord (map asNumber table) t = map asNumber (bump table t).
Proof.
  unfold plainKey, countWord, JSObject.set, JSObject.get. intros H.
  apply andb_true_iff in H as [H Hproto].
  apply andb_true_iff in H as [_ Hfun].
  apply negb_true_iff in Hproto. rewrite Hproto.
  destruct (assoc prototypeFunctions t) as [name|]; [discriminate|].
  induction table as [|[k n] table IH]; [reflexivity|].
  simpl. destruct (JSString.eqb k t); simpl.
  - reflexivity.
  - f_equal. exact IH.
Qed.

Lemma wordFreq_asNumber tokens table :
  (forall t, In t tokens -> plainKey t = true) ->
  fold_left countWord tokens (map asNumber table)
  = map asNumber (fold_left bump tokens table).
Proof.
  revert table. induction tokens as [|t tokens IH]; intros table H; [reflexivity|].
  simpl. rewrite countWord_asNumber by (apply H; now left).
  apply IH. intros u Hu. apply H. now right.
Qed.

(** The loop only counts the keyword tokens. *)
Lemma wordFreq_fold words o :
  fold_left (fun wordFreq word =>
               let cleanWord := filter isWordChar word in
               if (4 <? length cleanWord) && negb (has stopWords cleanWord)
               then JSObject.set wordFreq cleanWord
                      (orZeroPlusOne (JSObject.get wordFreq cleanWord))
               else wordFreq)
            words o
  = fold_left countWord
      (filter (fun w => (4 <? length w) && negb (has stopWords w))
              (map (filter isWordChar) words))
      o.
Proof.
  revert o. induction words as [|word words IH]; intros o; [reflexivity|].
  simpl. destruct (_ && _); simpl; apply IH.
Qed.

Lemma filter_none (A : Type) (p : A -> bool) (l : list A) :
  (forall x, In x l -> p x = false) -> filter p l = [].
Proof.
  induction l as [|x l IH]; intros H; [reflexivity|].
  simpl. rewrite (H x (or_introl eq_refl)). apply IH.
  intros y Hy. apply H. now right.
Qed.

Lemma filter_all (A : Type) (p : A -> bool) (l : list A) :
  (forall x, In x l -> p x = true) -> filter p l = l.
Proof.
  induction l as [|x l IH]; intros H; [reflexivity|].
  simpl. rewrite (H x (or_introl eq_refl)). f_equal. apply IH.
  intros y Hy. apply H. now right.
Qed.

Lemma entries_plain (o : JSObject) :
  (forall e, In e o -> isArrayIndex (fst e) = false) -> entries o = o.
Proof.
  intros H. unfold entries.
  rewrite filter_none by assumption.
  rewrite filter_all; [reflexivity|].
  intros e He. now rewrite (H e He).
Qed.

(** *** Sorting *)

Section SortFacts.
Variables A B : Type.
Variable f : A -> B.
Variable cmpA : A -> A -> option Z.
Variable cmpB : B -> B -> option Z.
Hypothesis cmp_f : forall a b, cmpB (f a) (f b) = cmpA a b.

Lemma insert_map a l :
  JSObject.insert cmpB (f a) (map f l) = map f (JSObject.insert cmpA a l).
Proof.
  induction l as [|b l IH]; [reflexivity|].
  simpl. unfold goesAfter. rewrite cmp_f.
  destruct (cmpA a b) as [v|]; [|reflexivity].
  destruct (0 <? v)%Z; [|reflexivity].
  simpl. now rewrite IH.
Qed.

Lemma sort_map l : JSObject.sort cmpB (map f l) = map f (JSObject.sort cmpA l).
Proof.
  unfold JSObject.sort. induction l as [|a l IH]; [reflexivity|].
  simpl. rewrite IH. apply insert_map.
Qed.
End SortFacts.

(** When no keyword token is an array index or a name inherited from
    [Object.prototype], the key points are the distinct keyword tokens
    in a stable sort by descending frequency, cut at five. *)
Lemma extractKeyPoints_plain text :
  (forall t, In t (keywordTokens text) -> plainKey t = true) ->
  extractKeyPoints text = topKeywords text.
Proof.
  intros Hplain. unfold extractKeyPoints, topKeywords, byFrequency.
  rewrite wordFreq_fold. fold (keywordTokens text).
  set (tokens := keywordTokens text) in *.
  change (@nil (jsstring * JSValue)) with (map asNumber []).
  rewrite wordFreq_asNumber by assumption. fold (tally tokens).
  rewrite tally_closed, map_map.
  rewrite entries_plain.
  2:{ intros e He. apply in_map_iff in He as (k & <- & Hk). simpl.
      apply (proj1 (distinct_In tokens k)) in Hk. specialize (Hplain k Hk).
      unfold plainKey in Hplain. rewrite !andb_true_iff in Hplain.
      destruct Hplain as [[H _] _]. now apply negb_true_iff in H. }
  rewrite sort_map with (cmpA := descending (frequency tokens)) by reflexivity.
  rewrite <- firstn_map, map_map. simpl. now rewrite map_id.
Qed.

(** *** The ranking *)

Section StableSort.
Variable A : Type.
Variables cnt pos : A -> nat.

Lemma goesAfter_descending a b :
  goesAfter (descending cnt) a b = (cnt a <? cnt b).
Proof.
  unfold goesAfter, descending.
  destruct (Nat.ltb_spec (cnt a) (cnt b)); [apply Z.ltb_lt | apply Z.ltb_ge]; lia.
Qed.

Lemma insert_perm a l : Permutation (JSObject.insert (descending cnt) a l) (a :: l).
Proof.
  induction l as [|b l IH]; simpl; [reflexivity|].
  destruct (goesAfter (descending cnt) a b); [|reflexivity].
  rewrite IH. apply perm_swap.
Qed.

Lemma sort_perm l : Permutation (JSObject.sort (descending cnt) l) l.
Proof.
  unfold JSObject.sort. induction l as [|a l IH]; simpl; [reflexivity|].
  rewrite insert_perm. now constructor.
Qed.

(** An element that was before all the others goes in front of its
    equals. *)
Lemma insert_sorted a l :
  StronglySorted (rankedAbove cnt pos) l ->
  Forall (fun x => pos a < pos x) l ->
  StronglySorted (rankedAbove cnt pos) (JSObject.insert (descending cnt) a l).
Proof.
  induction 1 as [|b l Hl IH Hb]; intros Hpos; simpl.
  - constructor; constructor.
  - inversion Hpos as [|? ? Hab Hposl]; subst.
    rewrite goesAfter_descending.
    destruct (Nat.ltb_spec (cnt a) (cnt b)) as [Lt|Ge].
    + constructor; [now apply IH|].
      rewrite (insert_perm a l). constructor; [|assumption].
      left. assumption.
    + constructor; [now constructor|].
      constructor.
      * unfold rankedAbove. lia.
      * rewrite Forall_forall in *. intros x Hx.
        specialize (Hb x Hx). specialize (Hposl x Hx).
        unfold rankedAbove in *. lia.
Qed.

Lemma sort_sorted l :
  StronglySorted (fun a b => pos a < pos b) l ->
  StronglySorted (rankedAbove cnt pos) (JSObject.sort (descending cnt) l).
Proof.
  unfold JSObject.sort. induction 1 as [|a l Hl IH Ha]; simpl; [constructor|].
  apply insert_sorted; [assumption|].
  change (fold_right (JSObject.insert (descending cnt)) [] l) with (JSObject.sort (descending cnt) l).
  now rewrite sort_perm.
Qed.
End StableSort.

Lemma firstIndex_distinct tokens :
  StronglySorted (fun t u => firstIndex tokens t < firstIndex tokens u) (distinct tokens).
Proof.
  induction tokens as [|x r IH]; simpl; [constructor|].
  assert (Shift : forall l,
             StronglySorted (fun t u => firstIndex r t < firstIndex r u) l ->
             StronglySorted
               (fun t u => (if JSString.eqb x t then 0 else S (firstIndex r t))
                           < (if JSString.eqb x u then 0 else S (firstIndex r u)))
               (filter (fun u => negb (JSString.eqb u x)) l)).
  { induction 1 as [|t l Hl IHl Ht]; simpl; [constructor|].
    destruct (JSString.eqb t x) eqn:E; simpl; [assumption|].
    constructor; [assumption|].
    rewrite Forall_forall in *. intros u Hu.
    apply filter_In in Hu as [Hu Hux].
    apply negb_true_iff in Hux.
    rewrite (eqb_sym x t), (eqb_sym x u), E, Hux.
    specialize (Ht u Hu). lia. }
  constructor; [now apply Shift|].
  rewrite Forall_forall. intros u Hu.
  apply filter_In in Hu as [_ Hux]. apply negb_true_iff in Hux.
  rewrite eqb_refl, (eqb_sym x u), Hux. lia.
Qed.

(** The stable descending sort lists every distinct token once, each
    above all the tokens after it. *)
Lemma byFrequency_ranked tokens :
  NoDup (byFrequency tokens)
  /\ (forall t, In t (byFrequency tokens) <-> In t tokens)
  /\ StronglySorted (ranksAbove tokens) (byFrequency tokens).
Proof.
  unfold byFrequency.
  pose proof (sort_perm _ (frequency tokens) (distinct tokens)) as P.
  repeat split.
  - apply Permutation_NoDup with (l := distinct tokens);
      [now symmetry | apply distinct_NoDup].
  - intros H. apply distinct_In. now apply (Permutation_in _ P).
  - intros H. apply (Permutation_in _ (Permutation_sym P)). now apply distinct_In.
  - apply sort_sorted. apply firstIndex_distinct.
Qed.

Lemma StronglySorted_app_inv (A : Type) (R : A -> A -> Prop) l1 l2 :
  StronglySorted R (l1 ++ l2) ->
  forall a b, In a l1 -> In b l2 -> R a b.
Proof.
  induction l1 as [|x l1 IH]; simpl; intros H a b Ha Hb; [contradiction|].
  inversion H as [|? ? Hs Hx]; subst.
  destruct Ha as [<-|Ha].
  - rewrite Forall_forall in Hx. apply Hx. apply in_or_app. now right.
  - now apply IH.
Qed.

(** The key points of the specification: at most five distinct keyword
    tokens, ranked, and each above every keyword token left out. *)
Lemma topKeywords_best text :
  let tokens := keywordTokens text in
  length (topKeywords text) = Nat.min 5 (length (distinct tokens))
  /\ NoDup (topKeywords text)
  /\ (forall t, In t (topKeywords text) -> In t tokens)
  /\ StronglySorted (ranksAbove tokens) (topKeywords text)
  /\ (forall t u, In t (topKeywords text) -> In u tokens -> ~ In u (topKeywords text) ->
                  ranksAbove tokens t u).
Proof.
  intros tokens. unfold topKeywords. fold tokens.
  destruct (byFrequency_ranked tokens) as (Hnd & Hin & Hsorted).
  set (L := byFrequency tokens) in *.
  assert (Hsplit : L = firstn 5 L ++ skipn 5 L) by (symmetry; apply firstn_skipn).
  repeat split.
  - rewrite length_firstn. f_equal.
    apply Permutation_length. apply sort_perm.
  - rewrite Hsplit in Hnd. now apply NoDup_app_remove_r in Hnd.
  - intros t Ht. apply Hin. rewrite Hsplit. apply in_or_app. now left.
  - rewrite Hsplit in Hsorted. clear Hsplit.
    induction (firstn 5 L) as [|x l IH]; simpl in *; [constructor|].
    inversion Hsorted as [|? ? Hs Hx]; subst.
    constructor; [now apply IH|].
    rewrite Forall_forall in *. intros y Hy. apply Hx. apply in_or_app. now left.
  - intros t u Ht Hu Hnot.
    apply Hin in Hu. rewrite Hsplit in Hu, Hsorted.
    apply in_app_or in Hu as [Hu|Hu]; [contradiction|].
    now apply (StronglySorted_app_inv _ _ _ _ Hsorted).
Qed.

(** On texts whose keyword tokens are all plain keys the code meets the
    ranking: at most five distinct keyword tokens, each above the ones
    after it and above every keyword token left out. *)
Lemma extractKeyPoints_ranked text :
  (forall t, In t (keywordTokens text) -> plainKey t = true) ->
  let tokens := keywordTokens text in
  length (extractKeyPoints text) = Nat.min 5 (length (distinct tokens))
  /\ NoDup (extractKeyPoints text)
  /\ (forall t, In t (extractKeyPoints text) -> In t tokens)
  /\ StronglySorted (ranksAbove tokens) (extractKeyPoints text)
  /\ (forall t u, In t (extractKeyPoints text) -> In u tokens ->
                  ~ In u (extractKeyPoints text) -> ranksAbove tokens t u).
Proof.
  intros Hplain. rewrite (extractKeyPoints_plain text Hplain).
  apply topKeywords_best.
Qed.

(** No key point is a stop word or has fewer than 5 characters, on any
    text. *)
Lemma keywordTokens_filtered text t :
  In t (keywordTokens text) -> 4 < length t /\ has stopWords t = false.
Proof.
  unfold keywordTokens. intros H. apply filter_In in H as [_ H].
  apply andb_true_iff in H as [Hlen Hstop].
  apply Nat.ltb_lt in Hlen. now apply negb_true_iff in Hstop.
Qed.

Example extractKeyPoints_sample :
  extractKeyPoints
    (str "Hello, world! The WORLD is great; great great-ness about ABOUT aBout")
  = map str ["about"; "world"; "great"; "hello"; "greatness"]%string.
Proof. vm_compute. reflexivity. Qed.

(** Keys that are array indices come first in [Object.entries], and
    [__proto__] is never stored. *)
Example extractKeyPoints_digits :
  extractKeyPoints (str "hello 12345 world")
  = map str ["12345"; "hello"; "world"]%string.
Proof. vm_compute. reflexivity. Qed.

Example extractKeyPoints_proto :
  extractKeyPoints (str "__proto__ __proto__ hello") = [str "hello"].
Proof. vm_compute. reflexivity. Qed.

(** ** [split] on runs of separators *)

Section SplitFacts.
Variable p : ascii -> bool.


(** A text without separator is one piece. *)
Lemma splitRuns_free w : free p w -> splitRuns p w = [w].
Proof.
  unfold free. induction w as [|c w IH]; simpl; [reflexivity|].
  intros H. apply andb_true_iff in H as [Hc Hw].
  apply negb_true_iff in Hc. now rewrite Hc, (IH Hw).
Qed.

Lemma splitRuns_sep_sep c c2 s :
  p c = true -> p c2 = true -> splitRuns p (c :: c2 :: s) = splitRuns p (c2 :: s).
Proof. intros Hc Hc2. simpl. now rewrite Hc, Hc2. Qed.

Lemma splitRuns_sep_free c rest :
  p c = true -> startsFree p rest -> splitRuns p (c :: rest) = [] :: splitRuns p rest.
Proof.
  intros Hc Hrest. destruct rest as [|c' rest]; simpl in *.
  - now rewrite Hc.
  - now rewrite Hc, Hrest.
Qed.

(** A maximal run of separators ends a piece. *)
Lemma splitRuns_run r rest :
  run p r -> startsFree p rest -> splitRuns p (r ++ rest) = [] :: splitRuns p rest.
Proof.
  intros [Hne Hr] Hrest. destruct r as [|c r]; [contradiction|]. clear Hne.
  revert c Hr. induction r as [|c2 r IH]; intros c Hr.
  - simpl in Hr. rewrite andb_true_r in Hr. now apply splitRuns_sep_free.
  - change (forallb p (c :: c2 :: r)) with (p c && forallb p (c2 :: r)) in Hr.
    apply andb_true_iff in Hr as [Hc Hr].
    assert (Hc2 : p c2 = true).
    { simpl in Hr. now apply andb_true_iff in Hr as [Hc2 _]. }
    change ((c :: c2 :: r) ++ rest) with (c :: c2 :: (r ++ rest)).
    rewrite (splitRuns_sep_sep _ _ _ Hc Hc2).
    now apply IH.
Qed.

(** A piece, a maximal run of separators, and the rest. *)
Lemma splitRuns_piece w r rest :
  free p w -> run p r -> startsFree p rest ->
  splitRuns p (w ++ r ++ rest) = w :: splitRuns p rest.
Proof.
  unfold free. intros Hw Hr Hrest.
  induction w as [|c w IH].
  - exact (splitRuns_run r rest Hr Hrest).
  - simpl in Hw. apply andb_true_iff in Hw as [Hc Hw].
    apply negb_true_iff in Hc.
    change ((c :: w) ++ r ++ rest) with (c :: (w ++ r ++ rest)).
    change (splitRuns p (c :: (w ++ r ++ rest)))
      with (if p c
            then match w ++ r ++ rest with
                 | c' :: _ => if p c' then splitRuns p (w ++ r ++ rest)
                              else [] :: splitRuns p (w ++ r ++ rest)
                 | [] => [[]; []]
                 end
            else match splitRuns p (w ++ r ++ rest) with
                 | w0 :: ws => (c :: w0) :: ws
                 | [] => [[c]]
                 end).
    now rewrite Hc, (IH Hw).
Qed.
End SplitFacts.

Example split_sentences :
  splitRuns isSentenceEnd (str "One. Two?! Three")
  = [str "One"; str " Two"; str " Three"]
  /\ splitRuns isSentenceEnd (str "Done...") = [str "Done"; str ""]
  /\ splitRuns isSentenceEnd (str "?a") = [str ""; str "a"].
Proof. repeat split; reflexivity. Qed.

(** * Further properties of the scripts *)

(** ** [trim] *)

Lemma dropWhile_startsFree p s : startsFree p (dropWhile p s).
Proof.
  induction s as [|c s IH]; simpl; [exact I|].
  destruct (p c) eqn:E; [exact IH | exact E].
Qed.

Lemma dropWhile_id p s : startsFree p s -> dropWhile p s = s.
Proof.
  destruct s as [|c s]; simpl; [reflexivity|]. now intros ->.
Qed.

(** What [dropWhile] leaves is a suffix, and it keeps the last character. *)
Lemma dropWhile_suffix p s : exists pre, s = pre ++ dropWhile p s.
Proof.
  induction s as [|c s [pre IH]]; simpl.
  - now exists [].
  - destruct (p c); [|now exists []].
    exists (c :: pre). simpl. now rewrite <- IH.
Qed.

Lemma startsFree_rev_suffix p pre s :
  s <> [] -> startsFree p (rev (pre ++ s)) -> startsFree p (rev s).
Proof.
  intros Hne. rewrite rev_app_distr.
  destruct (rev s) as [|c r] eqn:E.
  - apply (f_equal (@rev ascii)) in E. rewrite rev_involutive in E.
    simpl in E. contradiction.
  - simpl. tauto.
Qed.

Lemma trim_edgeFree s : edgeFree (trim s).
Proof.
  unfold edgeFree, trim, trimEnd, trimStart. rewrite rev_involutive.
  split; [|apply dropWhile_startsFree].
  set (t := dropWhile isSpace s).
  assert (Ht : startsFree isSpace t) by apply dropWhile_startsFree.
  destruct (dropWhile_suffix isSpace (rev t)) as [pre Hpre].
  destruct (dropWhile isSpace (rev t)) as [|c d] eqn:E; [exact I|].
  apply (f_equal (@rev ascii)) in Hpre.
  rewrite rev_involutive, rev_app_distr in Hpre.
  rewrite Hpre in Ht.
  destruct (rev (c :: d)) as [|x r] eqn:Er.
  - apply (f_equal (@length ascii)) in Er. rewrite length_rev in Er. discriminate.
  - exact Ht.
Qed.



(** A space after a text that has none at its ends is what [trim] removes. *)
Lemma trim_space_after s :
  s <> [] -> edgeFree s -> trim (s ++ str " ") = s.
Proof.
  intros Hne [Hs He]. unfold trim, trimEnd, trimStart.
  rewrite (dropWhile_id isSpace (s ++ str " "))
    by (destruct s; [contradiction | exact Hs]).
  rewrite rev_app_distr. simpl.
  rewrite (dropWhile_id _ _ He). apply rev_involutive.
Qed.

(** ** The transcript parser *)

Lemma edgeFree_join ts :
  Forall (fun t => t <> [] /\ edgeFree t) ts -> edgeFree (join (str " ") ts).
Proof.
  induction 1 as [|t ts [Hne [Hs He]] Hts IH]; [split; exact I|].
  destruct ts as [|u ts]; [split; assumption|].
  change (join (str " ") (t :: u :: ts)) with (t ++ str " " ++ join (str " ") (u :: ts)).
  set (J := join (str " ") (u :: ts)) in *.
  assert (HJ : J <> []).
  { inversion Hts as [|? ? [Hu _] _]; subst. unfold J.
    destruct ts; simpl; [assumption|]. destruct u; [contradiction | discriminate]. }
  split.
  - destruct t; [contradiction | exact Hs].
  - rewrite !rev_app_distr. destruct IH as [_ IHe].
    destruct (rev J) as [|c r] eqn:E.
    + apply (f_equal (@rev ascii)) in E. rewrite rev_involutive in E. contradiction.
    + exact IHe.
Qed.

Lemma join_nonEmpty ts :
  Forall (fun t => t <> []) ts -> ts <> [] -> join (str " ") ts <> [].
Proof.
  intros H Hne. destruct ts as [|t ts]; [contradiction|].
  inversion H as [|? ? Ht _]; subst.
  destruct ts; simpl; [assumption|]. destruct t; [contradiction | discriminate].
Qed.

(** The loop of the parser leaves every kept text followed by a space. *)
Lemma transcript_loop elements acc :
  fold_left (fun transcript el =>
               let text := trim el in
               match text with
               | [] => transcript
               | _ => transcript ++ text ++ str " "
               end) elements acc
  = acc ++ concat (map (fun t => t ++ str " ") (filter nonEmpty (map trim elements))).
Proof.
  revert acc. induction elements as [|el elements IH]; intros acc; simpl.
  - now rewrite app_nil_r.
  - rewrite IH. destruct (trim el) as [|c t]; simpl; [reflexivity|].
    rewrite <- app_assoc. reflexivity.
Qed.

Lemma concat_spaced ts :
  ts <> [] ->
  concat (map (fun t => t ++ str " ") ts) = join (str " ") ts ++ str " ".
Proof.
  induction ts as [|t ts IH]; [contradiction|]. intros _.
  destruct ts as [|u ts]; simpl; [now rewrite app_nil_r|].
  simpl in IH. rewrite IH by discriminate. now rewrite <- !app_assoc.
Qed.

Lemma kept_texts elements :
  Forall (fun t => t <> [] /\ edgeFree t) (filter nonEmpty (map trim elements)).
Proof.
  rewrite Forall_forall. intros t Ht.
  apply filter_In in Ht as [Ht Hne]. apply in_map_iff in Ht as (el & <- & _).
  split; [|apply trim_edgeFree].
  intros E. now rewrite E in Hne.
Qed.

(** The closed form of the parser. *)
Lemma transcript_closed_form textElements xml :
  parseYouTubeTranscriptXML textElements xml
  = join (str " ") (filter nonEmpty (map trim (textElements xml))).
Proof.
  unfold parseYouTubeTranscriptXML. rewrite transcript_loop. simpl app.
  pose proof (kept_texts (textElements xml)) as K.
  destruct (filter nonEmpty (map trim (textElements xml))) as [|t ts] eqn:Ets;
    [reflexivity|].
  rewrite concat_spaced by discriminate.
  apply trim_space_after.
  - apply join_nonEmpty; [|discriminate].
    eapply Forall_impl; [|exact K]. simpl. tauto.
  - now apply edgeFree_join.
Qed.

(** X1: the transcript is the trimmed, non-empty texts of the [text]
    elements, in document order, joined by single spaces; it has no
    whitespace at either end. *)
Theorem parseYouTubeTranscriptXML_joined :
  forall textElements xml,
    parseYouTubeTranscriptXML textElements xml
    = join (str " ") (filter nonEmpty (map trim (textElements xml)))
    /\ edgeFree (parseYouTubeTranscriptXML textElements xml).
Proof.
  intros textElements xml. split.
  - apply transcript_closed_form.
  - rewrite transcript_closed_form. apply edgeFree_join, kept_texts.
Qed.

(** X2: the transcript is empty exactly when the document has no [text]
    element with anything but whitespace in it. *)
Theorem parseYouTubeTranscriptXML_empty :
  forall textElements xml,
    parseYouTubeTranscriptXML textElements xml = []
    <-> forall el, In el (textElements xml) -> trim el = [].
Proof.
  intros textElements xml.
  rewrite transcript_closed_form.
  pose proof (kept_texts (textElements xml)) as K.
  split.
  - intros H el Hel.
    destruct (trim el) as [|c t] eqn:Et; [reflexivity|].
    exfalso. revert H. apply join_nonEmpty.
    + eapply Forall_impl; [|exact K]. simpl. tauto.
    + intros Hnil.
      assert (Hin : In (c :: t) (filter nonEmpty (map trim (textElements xml)))).
      { apply filter_In. split; [|reflexivity].
        rewrite <- Et. now apply in_map. }
      rewrite Hnil in Hin. destruct Hin.
  - intros H.
    rewrite filter_none; [reflexivity|].
    intros t Ht. apply in_map_iff in Ht as (el & <- & Hel).
    now rewrite (H el Hel).
Qed.

(** ** The fallback order of the transcript chain *)

(** X3: when the direct request gives nothing and the first proxy answers
    with a transcript of more than 50 characters, [getYouTubeTranscript]
    returns that transcript; exactly the direct URL and the codetabs URL
    have been requested, in this order, and the second proxy is not
    asked. *)
Theorem transcript_from_first_proxy :
  forall network textElements videoId w r xml,
    strategyFails textElements (network (requests w) (timedtextUrl videoId)) ->
    network (requests w ++ [timedtextUrl videoId]) (codetabsUrl videoId) = Responded r ->
    ok r = true ->
    body r = Return xml ->
    50 < length (parseYouTubeTranscriptXML textElements xml) ->
    let result := getYouTubeTranscript network textElements videoId w in
    fst result = Return (parseYouTubeTranscriptXML textElements xml)
    /\ requests (snd result) = requests w ++ [timedtextUrl videoId; codetabsUrl videoId].
Proof.
  intros network textElements videoId w r xml F1 H Hok Hb Hlen result.
  unfold result. rewrite getYouTubeTranscript_chain. unfold bind.
  destruct (strategy_fails network textElements _
              "Direct API call failed, trying proxy..." w F1)
    as (w1 & -> & Hr1 & _).
  rewrite <- Hr1 in H.
  rewrite strategy_accepts with (r := r) (xml := xml) by assumption.
  simpl. split; [reflexivity|].
  rewrite Hr1, <- app_assoc. reflexivity.
Qed.

Lemma transcript_from_first_proxy_witness :
  let network := fun (_ : list jsstring) url =>
                   if JSString.eqb url (codetabsUrl sampleId)
                   then Responded (mkResponse true (Return lyricsXml))
                   else Rejected failedToFetch in
  let result := getYouTubeTranscript network sampleTextElements sampleId freshWorld in
  fst result
  = Return (str "Never gonna give you up, never gonna let you down, never gonna run around.")
  /\ length (requests (snd result)) = 2.
Proof.
  intros network result.
  destruct (transcript_from_first_proxy network sampleTextElements sampleId freshWorld
              (mkResponse true (Return lyricsXml)) lyricsXml) as [H1 H2].
  - exact I.
  - reflexivity.
  - reflexivity.
  - reflexivity.
  - vm_compute. lia.
  - fold result in H1, H2. split.
    + rewrite H1. reflexivity.
    + rewrite H2. reflexivity.
Defined.

(** X4: when the direct request and the first proxy give nothing and the
    second proxy answers with a transcript of more than 50 characters,
    [getYouTubeTranscript] returns that transcript after the three
    requests, and does not throw. *)
Theorem transcript_from_second_proxy :
  forall network textElements videoId w r xml,
    strategyFails textElements (network (requests w) (timedtextUrl videoId)) ->
    strategyFails textElements
      (network (requests w ++ [timedtextUrl videoId]) (codetabsUrl videoId)) ->
    network (requests w ++ [timedtextUrl videoId; codetabsUrl videoId])
            (corsAnywhereUrl videoId) = Responded r ->
    ok r = true ->
    body r = Return xml ->
    50 < length (parseYouTubeTranscriptXML textElements xml) ->
    let result := getYouTubeTranscript network textElements videoId w in
    fst result = Return (parseYouTubeTranscriptXML textElements xml)
    /\ requests (snd result)
       = requests w ++ [timedtextUrl videoId; codetabsUrl videoId; corsAnywhereUrl videoId].
Proof.
  intros network textElements videoId w r xml F1 F2 H Hok Hb Hlen result.
  unfold result. rewrite getYouTubeTranscript_chain. unfold bind.
  destruct (strategy_fails network textElements _
              "Direct API call failed, trying proxy..." w F1)
    as (w1 & -> & Hr1 & _).
  rewrite <- Hr1 in F2.
  destruct (strategy_fails network textElements _
              "Proxy method failed, trying alternative..." w1 F2)
    as (w2 & -> & Hr2 & _).
  replace (requests w ++ [timedtextUrl videoId; codetabsUrl videoId])
    with (requests w2) in H
    by (rewrite Hr2, Hr1, <- app_assoc; reflexivity).
  rewrite strategy_accepts with (r := r) (xml := xml) by assumption.
  simpl. split; [reflexivity|].
  rewrite Hr2, Hr1, <- !app_assoc. reflexivity.
Qed.

Lemma transcript_from_second_proxy_witness :
  let network := fun (_ : list jsstring) url =>
                   if JSString.eqb url (corsAnywhereUrl sampleId)
                   then Responded (mkResponse true (Return lyricsXml))
                   else Responded (mkResponse false (Return [])) in
  let result := getYouTubeTranscript network sampleTextElements sampleId freshWorld in
  fst result
  = Return (str "Never gonna give you up, never gonna let you down, never gonna run around.")
  /\ length (requests (snd result)) = 3
  /\ console (snd result) = [].
Proof.
  intros network result.
  destruct (transcript_from_second_proxy network sampleTextElements sampleId freshWorld
              (mkResponse true (Return lyricsXml)) lyricsXml) as [H1 H2].
  - left. reflexivity.
  - left. reflexivity.
  - reflexivity.
  - reflexivity.
  - reflexivity.
  - vm_compute. lia.
  - fold result in H1, H2. split; [|split].
    + rewrite H1. reflexivity.
    + rewrite H2. reflexivity.
    + reflexivity.
Defined.

(** ** What the chain writes to the console *)

Section ConsoleFacts.
Variable network : list jsstring -> jsstring -> FetchResult.
Variable textElements : jsstring -> list jsstring.

Lemma strategy_rejected url line w e :
  network (requests w) url = Rejected e ->
  strategy network textElements url line w
  = (Return None,
     mkWorld (requests w ++ [url]) (console w ++ [line]) (page w)).
Proof.
  intros H. unfold strategy, tryCatch.
  rewrite attempt_rejected with (e := e) by assumption. reflexivity.
Qed.

Lemma strategy_not_ok url line w r :
  network (requests w) url = Responded r -> ok r = false ->
  strategy network textElements url line w = (Return None, recordRequest url w).
Proof.
  intros H Hok. unfold strategy, tryCatch.
  rewrite attempt_not_ok with (r := r) by assumption. reflexivity.
Qed.
End ConsoleFacts.

(** X5: a strategy leaves a line on the console only when it throws.
    With the three requests rejected, the console gains the three lines
    of the [catch] blocks in order; with three responses that are not
    ok, nothing is logged.  Either way the aggregated error is thrown. *)
Theorem transcript_chain_console :
  forall network textElements videoId w,
    ((forall history url, exists e, network history url = Rejected e) ->
     let result := getYouTubeTranscript network textElements videoId w in
     fst result = Throw transcriptUnavailable
     /\ console (snd result)
        = console w ++ ["Direct API call failed, trying proxy...";
                        "Proxy method failed, trying alternative...";
                        "Alternative proxy failed"]%string)
    /\ ((forall history url, exists r, network history url = Responded r /\ ok r = false) ->
        let result := getYouTubeTranscript network textElements videoId w in
        fst result = Throw transcriptUnavailable
        /\ console (snd result) = console w).
Proof.
  intros network textElements videoId w. split.
  - intros Hrej result. unfold result.
    rewrite getYouTubeTranscript_chain. unfold bind.
    destruct (Hrej (requests w) (timedtextUrl videoId)) as [e1 H1].
    rewrite strategy_rejected with (e := e1) by assumption.
    match goal with
    | |- context [strategy _ _ (codetabsUrl _) _ ?W] =>
        destruct (Hrej (requests W) (codetabsUrl videoId)) as [e2 H2];
        rewrite strategy_rejected with (e := e2) (w := W) by assumption
    end.
    match goal with
    | |- context [strategy _ _ (corsAnywhereUrl _) _ ?W] =>
        destruct (Hrej (requests W) (corsAnywhereUrl videoId)) as [e3 H3];
        rewrite strategy_rejected with (e := e3) (w := W) by assumption
    end.
    simpl. split; [reflexivity|]. rewrite <- !app_assoc. reflexivity.
  - intros Hno result. unfold result.
    rewrite getYouTubeTranscript_chain. unfold bind.
    destruct (Hno (requests w) (timedtextUrl videoId)) as (r1 & H1 & K1).
    rewrite strategy_not_ok with (r := r1) by assumption.
    match goal with
    | |- context [strategy _ _ (codetabsUrl _) _ ?W] =>
        destruct (Hno (requests W) (codetabsUrl videoId)) as (r2 & H2 & K2);
        rewrite strategy_not_ok with (r := r2) (w := W) by assumption
    end.
    match goal with
    | |- context [strategy _ _ (corsAnywhereUrl _) _ ?W] =>
        destruct (Hno (requests W) (corsAnywhereUrl videoId)) as (r3 & H3 & K3);
        rewrite strategy_not_ok with (r := r3) (w := W) by assumption
    end.
    simpl. split; reflexivity.
Qed.

Lemma transcript_chain_console_witness :
  console (snd (getYouTubeTranscript offline sampleTextElements sampleId freshWorld))
  = ["Direct API call failed, trying proxy...";
     "Proxy method failed, trying alternative...";
     "Alternative proxy failed"]%string
  /\ console (snd (getYouTubeTranscript
                     (fun _ _ => Responded (mkResponse false (Return [])))
                     sampleTextElements sampleId freshWorld))
     = [].
Proof.
  split.
  - destruct (transcript_chain_console offline sampleTextElements sampleId freshWorld)
      as [H _].
    destruct H as [_ H].
    + intros history url. now exists failedToFetch.
    + exact H.
  - destruct (transcript_chain_console
                (fun _ _ => Responded (mkResponse false (Return [])))
                sampleTextElements sampleId freshWorld) as [_ H].
    destruct H as [_ H].
    + intros history url. now exists (mkResponse false (Return [])).
    + exact H.
Defined.

(** ** The page driver on every URL *)

Section DriverCases.
Variable network : list jsstring -> jsstring -> FetchResult.
Variable textElements : jsstring -> list jsstring.
Variable parseJSON : jsstring -> option JSON.

Lemma summarizeContent_podcast url w :
  isValidYouTubeURL url = false ->
  isValidPodcastURL url = true ->
  summarizeContent network textElements parseJSON url w
  = (Return tt,
     mkWorld (requests w) (console w ++ ["Error: " ++ podcastMessage]%string)
       (mkPage "none" "none" "block" ("Error: " ++ podcastMessage)%string
               "Processing podcast feed..." (displayed (page w)))).
Proof.
  intros Hy Hp. unfold summarizeContent. rewrite Hy, Hp. reflexivity.
Qed.

Lemma summarizeContent_invalid url w :
  isValidYouTubeURL url = false ->
  isValidPodcastURL url = false ->
  summarizeContent network textElements parseJSON url w
  = (Return tt,
     mkWorld (requests w) (console w ++ ["Error: " ++ invalidUrlMessage]%string)
       (mkPage "none" "none" "block" ("Error: " ++ invalidUrlMessage)%string
               (loadingStatus_text (page w)) (displayed (page w)))).
Proof.
  intros Hy Hp. unfold summarizeContent. rewrite Hy, Hp. reflexivity.
Qed.

(** The outcomes of the driver, on any URL. *)
Lemma summarizeContent_cases url w :
  let result := summarizeContent network textElements parseJSON url w in
  fst result = Return tt
  /\ loadingSection_display (page (snd result)) = "none"%string
  /\ ((resultsSection_display (page (snd result)) = "block"%string
       /\ errorMessage_display (page (snd result)) = "none"%string
       /\ exists info sd t,
           displayed (page (snd result)) = Some (mkDisplay (Some info) sd t)
           /\ 50 < length t
           /\ generateSummary t = Return sd)
      \/ (resultsSection_display (page (snd result)) = "none"%string
          /\ errorMessage_display (page (snd result)) = "block"%string
          /\ displayed (page (snd result)) = displayed (page w)
          /\ In (errorMessage_text (page (snd result)))
                [("Error: " ++ message transcriptUnavailable)%string;
                 ("Error: " ++ podcastMessage)%string;
                 ("Error: " ++ invalidUrlMessage)%string])).
Proof.
  intros result. unfold result.
  destruct (isValidYouTubeURL url) eqn:Hy.
  - destruct (valid_extracts url Hy) as [videoId Hid].
    destruct (summarizeContent_youtube network textElements parseJSON url videoId w Hy Hid)
      as (info & w1 & w2 & _ & [(t & sd & Et & Egen & ->)|[_ ->]]); simpl.
    + repeat split. left. repeat split. exists info, sd, t. repeat split; [|assumption].
      destruct (getYouTubeTranscript_outcome network textElements videoId (fetching w1))
        as (w2' & _ & [(t' & Et' & Ht')|Et']); rewrite Et in Et'.
      * now injection Et' as <- <-.
      * discriminate.
    + repeat split. right. repeat split. now left.
  - destruct (isValidPodcastURL url) eqn:Hp.
    + rewrite summarizeContent_podcast by assumption. simpl.
      repeat split. right. repeat split. right. now left.
    + rewrite summarizeContent_invalid by assumption. simpl.
      repeat split. right. repeat split. right. right. now left.
Qed.
End DriverCases.


(** X7: the page can show three error messages only: the aggregated
    transcript error, the podcast message and the invalid-URL message.
    The errors 'No transcript available for this video...' and
    'Transcript too short to generate summary' are never shown by
    [summarizeContent], since a transcript that the chain returns has more
    than 50 characters. *)
Theorem summarizeContent_error_messages :
  forall network textElements parseJSON url w,
    let p := page (snd (summarizeContent network textElements parseJSON url w)) in
    errorMessage_display p = "block"%string ->
    In (errorMessage_text p)
       [("Error: " ++ message transcriptUnavailable)%string;
        "Error: Podcast RSS feed processing requires backend setup. Please use YouTube videos for now."%string;
        "Error: Invalid URL. Please enter a valid YouTube URL."%string]
    /\ errorMessage_text p <> ("Error: " ++ message noTranscript)%string
    /\ errorMessage_text p <> ("Error: " ++ message tooShort)%string.
Proof.
  intros network textElements parseJSON url w p Hblock.
  destruct (summarizeContent_cases network textElements parseJSON url w)
    as (_ & _ & [(_ & Herr & _)|(_ & _ & _ & Hin)]).
  - fold p in Herr. rewrite Herr in Hblock. discriminate.
  - fold p in Hin. split; [exact Hin|].
    split; intros E; rewrite E in Hin;
      repeat (destruct Hin as [Hin|Hin]; [discriminate|]); destruct Hin.
Qed.

Lemma summarizeContent_error_messages_witness :
  errorMessage_text
    (page (snd (summarizeContent offline sampleTextElements noJSON
                  (str "https://youtu.be/dQw4w9WgXcQ") freshWorld)))
  = ("Error: " ++ message transcriptUnavailable)%string.
Proof.
  destruct (summarizeContent_error_messages offline sampleTextElements noJSON
              (str "https://youtu.be/dQw4w9WgXcQ") freshWorld) as (Hin & _ & _).
  - reflexivity.
  - reflexivity.
Defined.

(** X8: a URL that is not a YouTube URL never reaches the network: the
    request log is unchanged, nothing is rendered, and the page shows the
    podcast message when the URL looks like a feed and the invalid-URL
    message otherwise. *)
Theorem summarizeContent_rejects_without_request :
  forall network textElements parseJSON url w,
    isValidYouTubeURL url = false ->
    let result := summarizeContent network textElements parseJSON url w in
    requests (snd result) = requests w
    /\ displayed (page (snd result)) = displayed (page w)
    /\ errorMessage_display (page (snd result)) = "block"%string
    /\ errorMessage_text (page (snd result))
       = (if isValidPodcastURL url
          then "Error: Podcast RSS feed processing requires backend setup. Please use YouTube videos for now."
          else "Error: Invalid URL. Please enter a valid YouTube URL.")%string.
Proof.
  intros network textElements parseJSON url w Hy result. unfold result.
  destruct (isValidPodcastURL url) eqn:Hp.
  - rewrite summarizeContent_podcast by assumption. repeat split.
  - rewrite summarizeContent_invalid by assumption. repeat split.
Qed.

Lemma summarizeContent_rejects_without_request_witness :
  let result := summarizeContent (onlyDirect lyricsXml) sampleTextElements noJSON
                  (str "https://example.org/show.rss") freshWorld in
  requests (snd result) = []
  /\ errorMessage_text (page (snd result))
     = "Error: Podcast RSS feed processing requires backend setup. Please use YouTube videos for now."%string.
Proof.
  intros result.
  destruct (summarizeContent_rejects_without_request (onlyDirect lyricsXml)
              sampleTextElements noJSON (str "https://example.org/show.rss") freshWorld)
    as (Hreq & _ & _ & Htext).
  - reflexivity.
  - fold result in Hreq, Htext. split; [exact Hreq | exact Htext].
Defined.

(** ** The classifiers on longer and on other texts *)

Lemma litCI_app (R : Type) t w (k : jsstring -> option R) rest :
  map foldCase w = map foldCase t -> litCI t k (w ++ rest) = k rest.
Proof.
  revert w. induction t as [|a t IH]; intros [|c w] H; try discriminate; simpl.
  - reflexivity.
  - injection H as Hc Hw. unfold clsCI. rewrite Hc, Ascii.eqb_refl. now apply IH.
Qed.

(** X9: [isValidPodcastURL] accepts every text in which "feed" or
    "podcast" occurs, in any mix of upper and lower case and at any
    place; no scheme and no host are needed. *)
Theorem isValidPodcastURL_substring :
  forall pre word post,
    map foldCase word = str "feed" \/ map foldCase word = str "podcast" ->
    isValidPodcastURL (pre ++ word ++ post) = true.
Proof.
  intros pre word post H. unfold isValidPodcastURL.
  destruct H as [H|H].
  - destruct (search_suffix (litCI (str "feed") (fun _ => Some tt)) pre (word ++ post)
                            (x := tt)) as [y Hy].
    + now apply litCI_app.
    + rewrite Hy. simpl. now rewrite orb_true_r.
  - destruct (search_suffix (litCI (str "podcast") (fun _ => Some tt)) pre (word ++ post)
                            (x := tt)) as [y Hy].
    + now apply litCI_app.
    + rewrite Hy. simpl. now rewrite orb_true_r.
Qed.

Lemma isValidPodcastURL_substring_witness :
  isValidPodcastURL (str "see my PodCast page") = true
  /\ isValidPodcastURL (str "newsFEED") = true.
Proof.
  split.
  - apply (isValidPodcastURL_substring (str "see my ") (str "PodCast") (str " page")).
    right. reflexivity.
  - apply (isValidPodcastURL_substring (str "news") (str "FEED") (str "")).
    left. reflexivity.
Defined.

Section Extension.
Variable R : Type.
Implicit Types (k : jsstring -> option R).

Lemma lit_extends t k : extends k -> extends (lit t k).
Proof.
  intros Hk s suffix x H.
  apply lit_inv in H as (r & -> & H).
  rewrite <- app_assoc, lit_app. now apply Hk.
Qed.

(** An optional literal, when the literal cannot start what follows it. *)
Lemma opt_lit_extends t k :
  extends k -> (forall s x, k s = Some x -> lit t k s = None) ->
  extends (opt (lit t) k).
Proof.
  intros Hk Hex s suffix x H. unfold opt in *.
  destruct (lit t k s) as [y|] eqn:E.
  - injection H as ->. now rewrite (lit_extends t k Hk _ suffix _ E).
  - rewrite (Hex _ _ (Hk _ suffix _ H)). now apply Hk.
Qed.

Lemma alt_lit_extends t1 t2 k :
  extends k -> (forall s x, lit t2 k s = Some x -> lit t1 k s = None) ->
  extends (alt (lit t1) (lit t2) k).
Proof.
  intros Hk Hex s suffix x H. unfold alt in *.
  destruct (lit t1 k s) as [y|] eqn:E.
  - injection H as ->. now rewrite (lit_extends t1 k Hk _ suffix _ E).
  - rewrite (Hex _ _ (lit_extends t2 k Hk _ suffix _ H)).
    now apply (lit_extends t2 k Hk).
Qed.
End Extension.

Lemma group_extends p n : extends (group p n).
Proof.
  intros s suffix g H.
  apply group_inv in H as (Hlen & Hp & r & ->).
  rewrite <- app_assoc, <- Hlen. now apply group_app.
Qed.

Lemma validPattern1_extends : extends validPattern1.
Proof.
  unfold validPattern1.
  assert (A : extends (alt (lit (str "youtube.com/watch?v=")) (lit (str "youtu.be/"))
                           (group isIdChar 11))).
  { apply alt_lit_extends; [apply group_extends|].
    intros s x H. apply lit_inv in H as (r & -> & _). reflexivity. }
  assert (W : extends (opt (lit (str "www."))
                           (alt (lit (str "youtube.com/watch?v=")) (lit (str "youtu.be/"))
                                (group isIdChar 11)))).
  { apply opt_lit_extends; [exact A|].
    intros s x H. apply alt_inv in H as [H|H];
      apply lit_inv in H as (r & -> & _); reflexivity. }
  assert (S : extends (opt (lit (str "s"))
                 (lit (str "://")
                    (opt (lit (str "www."))
                       (alt (lit (str "youtube.com/watch?v=")) (lit (str "youtu.be/"))
                          (group isIdChar 11)))))).
  { apply opt_lit_extends; [now apply lit_extends|].
    intros s' x' H'. apply lit_inv in H' as (r' & -> & _). reflexivity. }
  intros s suffix x H.
  apply lit_inv in H as (r & -> & H). rewrite <- app_assoc, lit_app.
  now apply S.
Qed.

Lemma validPattern2_extends : extends validPattern2.
Proof.
  unfold validPattern2.
  assert (A : extends (lit (str "youtube.com/embed/") (group isIdChar 11))).
  { apply lit_extends, group_extends. }
  assert (W : extends (opt (lit (str "www."))
                           (lit (str "youtube.com/embed/") (group isIdChar 11)))).
  { apply opt_lit_extends; [exact A|].
    intros s x H. apply lit_inv in H as (r & -> & _). reflexivity. }
  assert (S : extends (opt (lit (str "s"))
                 (lit (str "://")
                    (opt (lit (str "www."))
                       (lit (str "youtube.com/embed/") (group isIdChar 11)))))).
  { apply opt_lit_extends; [now apply lit_extends|].
    intros s' x' H'. apply lit_inv in H' as (r' & -> & _). reflexivity. }
  intros s suffix x H.
  apply lit_inv in H as (r & -> & H). rewrite <- app_assoc, lit_app.
  now apply S.
Qed.

Lemma valid_scheme url :
  isValidYouTubeURL url = true ->
  exists rest, url = str "http://" ++ rest \/ url = str "https://" ++ rest.
Proof.
  unfold isValidYouTubeURL, existsb. rewrite orb_false_r.
  assert (S : forall (k : jsstring -> option jsstring) x,
             lit (str "http") (opt (lit (str "s")) (lit (str "://") k)) url = Some x ->
             exists rest, url = str "http://" ++ rest \/ url = str "https://" ++ rest).
  { intros k x H. apply lit_inv in H as (r & -> & H).
    apply opt_inv in H as [H|H].
    - apply lit_inv in H as (r1 & -> & H). apply lit_inv in H as (r2 & -> & _).
      exists r2. now right.
    - apply lit_inv in H as (r2 & -> & _). exists r2. now left. }
  intros H. apply orb_true_iff in H as [H|H].
  - destruct (validPattern1 url) as [x|] eqn:E; [|discriminate]. exact (S _ _ E).
  - destruct (validPattern2 url) as [x|] eqn:E; [|discriminate]. exact (S _ _ E).
Qed.

(** X10: [isValidYouTubeURL] is anchored at the start only.  An accepted
    URL begins with http:// or https://, and stays accepted whatever is
    appended to it: nothing is checked after the 11 characters of the id. *)
Theorem isValidYouTubeURL_prefix_only :
  forall url,
    isValidYouTubeURL url = true ->
    (exists rest, url = str "http://" ++ rest \/ url = str "https://" ++ rest)
    /\ forall suffix, isValidYouTubeURL (url ++ suffix) = true.
Proof.
  intros url H. split; [now apply valid_scheme|].
  intros suffix. unfold isValidYouTubeURL, existsb in *. rewrite orb_false_r in *.
  apply orb_true_iff in H as [H|H].
  - destruct (validPattern1 url) as [x|] eqn:E; [|discriminate].
    now rewrite (validPattern1_extends _ suffix _ E).
  - destruct (validPattern2 url) as [x|] eqn:E; [|discriminate].
    rewrite (validPattern2_extends _ suffix _ E). apply orb_true_r.
Qed.

Lemma isValidYouTubeURL_prefix_only_witness :
  isValidYouTubeURL (str "https://youtu.be/dQw4w9WgXcQ" ++ str "-and-more?x=1") = true.
Proof.
  destruct (isValidYouTubeURL_prefix_only (str "https://youtu.be/dQw4w9WgXcQ")) as [_ H].
  - reflexivity.
  - apply H.
Defined.

(** ** A query parameter after the id *)

Lemma search_skip_cls (R : Type) p (k : jsstring -> option R) pre s :
  forallb (fun c => negb (p c)) pre = true ->
  search (cls p k) (pre ++ s) = search (cls p k) s.
Proof.
  induction pre as [|c pre IH]; simpl app; [reflexivity|].
  intros H. simpl in H. apply andb_true_iff in H as [Hc Hpre].
  apply negb_true_iff in Hc.
  rewrite search_cons_fail by (simpl; now rewrite Hc).
  now apply IH.
Qed.

Section Precedence.
Variables id1 id2 : jsstring.
Hypothesis id1_length : length id1 = 11.
Hypothesis id1_chars : forallb isIdChar id1 = true.
Hypothesis id2_length : length id2 = 11.
Hypothesis id2_chars : forallb isIdChar id2 = true.

Lemma path_id_captured scheme www :
  In scheme [str "http://"; str "https://"] -> In www [str ""; str "www."] ->
  validPattern1 (scheme ++ www ++ str "youtu.be/" ++ id1) = Some id1
  /\ validPattern2 (scheme ++ www ++ str "youtube.com/embed/" ++ id1) = Some id1.
Proof.
  assert (G : group isIdChar 11 id1 = Some id1) by now apply group_exact.
  simpl. intros [<-|[<-|[]]] [<-|[<-|[]]];
    unfold validPattern1, validPattern2;
    revert G; generalize (group isIdChar 11); intros k Hk;
    split; vm_compute; rewrite ?Hk; reflexivity.
Qed.

Lemma query_id_extracted scheme www path rest :
  In scheme [str "http://"; str "https://"] -> In www [str ""; str "www."] ->
  In path [str "youtu.be/"; str "youtube.com/embed/"] ->
  extractYouTubeVideoId (scheme ++ www ++ path ++ id1 ++ str "?v=" ++ id2 ++ rest)
  = Some id2.
Proof.
  assert (G : idPattern1 (str "?v=" ++ id2 ++ rest) = Some id2).
  { change (idPattern1 (str "?v=" ++ id2 ++ rest))
      with (group isIdChar 11 (id2 ++ rest)).
    rewrite <- id2_length. now apply group_app. }
  assert (S : search idPattern1 (id1 ++ str "?v=" ++ id2 ++ rest) = Some id2).
  { unfold idPattern1 at 1. rewrite search_skip_cls by now apply id_no_query.
    now apply search_hit. }
  simpl. intros [<-|[<-|[]]] [<-|[<-|[]]] [<-|[<-|[]]];
    unfold extractYouTubeVideoId, firstMatch;
    cbn [str list_ascii_of_string app];
    skip_positions;
    change ("?"%char :: "v"%char :: "="%char :: id2 ++ rest)
      with (str "?v=" ++ id2 ++ rest);
    rewrite S; reflexivity.
Qed.
End Precedence.

(** X11: in the short-link and the embed form, a [?v=] parameter after
    the id wins over the id in the path: the classifier accepts the URL on
    the path id, and [extractYouTubeVideoId] returns the id of the
    parameter, because its query pattern is tried first. *)
Theorem extractor_prefers_query_parameter :
  forall id1 id2 scheme www rest,
    length id1 = 11 -> forallb isIdChar id1 = true ->
    length id2 = 11 -> forallb isIdChar id2 = true ->
    In scheme [str "http://"; str "https://"] -> In www [str ""; str "www."] ->
    (let url := scheme ++ www ++ str "youtu.be/" ++ id1 ++ str "?v=" ++ id2 ++ rest in
     validPattern1 url = Some id1
     /\ isValidYouTubeURL url = true
     /\ extractYouTubeVideoId url = Some id2)
    /\ (let url := scheme ++ www ++ str "youtube.com/embed/" ++ id1
                   ++ str "?v=" ++ id2 ++ rest in
        validPattern2 url = Some id1
        /\ isValidYouTubeURL url = true
        /\ extractYouTubeVideoId url = Some id2).
Proof.
  intros id1 id2 scheme www rest L1 C1 L2 C2 Hs Hw.
  destruct (path_id_captured id1 L1 C1 scheme www Hs Hw) as [P1 P2].
  split.
  - assert (V : validPattern1 (scheme ++ www ++ str "youtu.be/" ++ id1
                               ++ str "?v=" ++ id2 ++ rest) = Some id1).
    { pose proof (validPattern1_extends _ (str "?v=" ++ id2 ++ rest) _ P1) as E.
      now rewrite <- !app_assoc in E. }
    split; [exact V|]. split.
    + unfold isValidYouTubeURL, existsb. now rewrite V.
    + apply query_id_extracted; simpl; auto.
  - assert (V : validPattern2 (scheme ++ www ++ str "youtube.com/embed/" ++ id1
                               ++ str "?v=" ++ id2 ++ rest) = Some id1).
    { pose proof (validPattern2_extends _ (str "?v=" ++ id2 ++ rest) _ P2) as E.
      now rewrite <- !app_assoc in E. }
    split; [exact V|]. split.
    + unfold isValidYouTubeURL, existsb. rewrite V. apply orb_true_r.
    + apply query_id_extracted; simpl; auto.
Qed.

Lemma extractor_prefers_query_parameter_witness :
  let url := str "https://youtu.be/AAAAAAAAAAA?v=dQw4w9WgXcQ&t=42" in
  validPattern1 url = Some (str "AAAAAAAAAAA")
  /\ extractYouTubeVideoId url = Some (str "dQw4w9WgXcQ").
Proof.
  destruct (extractor_prefers_query_parameter (str "AAAAAAAAAAA") (str "dQw4w9WgXcQ")
              (str "https://") (str "") (str "&t=42")) as [(V & _ & E) _];
    try reflexivity; simpl; auto.
Defined.

(** ** The metadata of a JSON body *)

(** X12: when the oEmbed response is ok and its body is JSON,
    [getYouTubeVideoInfo] logs nothing unless the body is [null]: an
    object gives its [title], [author_name] and [thumbnail_url] as they
    are, a missing one being [undefined]; a body that is a number, a
    string, a boolean or an array gives three [undefined] fields, not
    the fallback record; [null] gives the fallback record. *)
Theorem getYouTubeVideoInfo_of_json :
  forall network parseJSON videoId w r s data,
    network (requests w) (oEmbedUrl videoId) = Responded r ->
    ok r = true ->
    body r = Return s ->
    parseJSON s = Some data ->
    let result := getYouTubeVideoInfo network parseJSON videoId w in
    fst result
    = Return (match data with
              | JNull => fallbackInfo
              | JObj fields =>
                  mkVideoInfo (lookupField (str "title") fields)
                              (lookupField (str "author_name") fields)
                              (lookupField (str "thumbnail_url") fields)
              | _ => mkVideoInfo None None None
              end)
    /\ requests (snd result) = requests w ++ [oEmbedUrl videoId]
    /\ (data <> JNull -> console (snd result) = console w).
Proof.
  intros network parseJSON videoId w r s data H Hok Hb Hp result. unfold result.
  unfold getYouTubeVideoInfo, tryCatch, bind, fetch, json, text, lift.
  rewrite H, Hok. cbn -[getField log oEmbedUrl recordRequest str].
  rewrite Hb, Hp. cbn -[log oEmbedUrl recordRequest str lookupField].
  destruct data; cbn -[oEmbedUrl str lookupField]; repeat split; congruence.
Qed.

Lemma getYouTubeVideoInfo_of_json_witness :
  let network := fun (_ : list jsstring) (_ : jsstring) =>
                   Responded (mkResponse true (Return (str "{}"))) in
  let parseJSON := fun s => if JSString.eqb s (str "{}") then Some (JObj []) else None in
  fst (getYouTubeVideoInfo network parseJSON sampleId freshWorld)
  = Return (mkVideoInfo None None None).
Proof.
  intros network parseJSON.
  destruct (getYouTubeVideoInfo_of_json network parseJSON sampleId freshWorld
              (mkResponse true (Return (str "{}"))) (str "{}") (JObj []))
    as (H & _ & _);
    [reflexivity | reflexivity | reflexivity | reflexivity | exact H].
Defined.

(** ** The proxy URL *)

Lemma idChar_unreserved c : isIdChar c = true -> isUnreserved c = true.
Proof.
  destruct c as [[] [] [] [] [] [] [] []]; vm_compute; congruence.
Qed.

Lemma encodeURIComponent_unreserved s :
  forallb isUnreserved s = true -> encodeURIComponent s = s.
Proof.
  unfold encodeURIComponent. induction s as [|c s IH]; intros H; [reflexivity|].
  simpl in H. apply andb_true_iff in H as [Hc Hs].
  change (flat_map encodeChar (c :: s)) with (encodeChar c ++ flat_map encodeChar s).
  rewrite (IH Hs). unfold encodeChar. rewrite Hc. reflexivity.
Qed.

Lemma encodeURIComponent_app a b :
  encodeURIComponent (a ++ b) = encodeURIComponent a ++ encodeURIComponent b.
Proof. unfold encodeURIComponent. apply flat_map_app. Qed.

(** X13: for a video id of letters, digits, hyphens and underscores the
    URL of the first proxy is the fixed text below followed by the id
    itself: the nested timedtext URL has its [:], [/], [?], [=] and [&]
    percent-escaped and the id passes unchanged. *)
Theorem codetabsUrl_of_id :
  forall videoId,
    forallb isIdChar videoId = true ->
    codetabsUrl videoId
    = str "https://api.codetabs.com/v1/proxy?quest=https%3A%2F%2Fwww.youtube.com%2Fapi%2Ftimedtext%3Flang%3Den%26v%3D"
      ++ videoId.
Proof.
  intros videoId H. unfold codetabsUrl, timedtextUrl.
  rewrite encodeURIComponent_app.
  rewrite (encodeURIComponent_unreserved videoId).
  - rewrite app_assoc. reflexivity.
  - rewrite forallb_forall in *. intros c Hc. now apply idChar_unreserved, H.
Qed.

Lemma codetabsUrl_of_id_witness :
  codetabsUrl sampleId
  = str "https://api.codetabs.com/v1/proxy?quest=https%3A%2F%2Fwww.youtube.com%2Fapi%2Ftimedtext%3Flang%3Den%26v%3DdQw4w9WgXcQ".
Proof.
  rewrite (codetabsUrl_of_id sampleId); reflexivity.
Defined.

(** ** Key points on every text *)

Lemma update_keys_In o k v x :
  In x (map fst (update o k v)) <-> In x (map fst o) \/ x = k.
Proof.
  induction o as [|[k0 v0] o IH]; simpl.
  - intuition congruence.
  - destruct (JSString.eqb k0 k) eqn:E; simpl.
    + apply eqb_eq in E. subst. intuition congruence.
    + rewrite IH. tauto.
Qed.

Lemma update_keys_NoDup o k v :
  NoDup (map fst o) -> NoDup (map fst (update o k v)).
Proof.
  induction o as [|[k0 v0] o IH]; simpl; intros H.
  - constructor; [tauto | constructor].
  - inversion H as [|? ? Hk0 Ho]; subst.
    destruct (JSString.eqb k0 k) eqn:E; simpl.
    + now constructor.
    + constructor; [|now apply IH].
      rewrite update_keys_In. intros [Hin| ->]; [contradiction|].
      now rewrite eqb_refl in E.
Qed.

(** The counting loop keeps the keys distinct and among the words counted. *)
Lemma countWord_keys tokens o :
  NoDup (map fst o) ->
  NoDup (map fst (fold_left countWord tokens o))
  /\ forall x, In x (map fst (fold_left countWord tokens o)) ->
               In x (map fst o) \/ In x tokens.
Proof.
  revert o. induction tokens as [|t tokens IH]; intros o Ho; simpl; [tauto|].
  assert (Hstep : NoDup (map fst (countWord o t))
                  /\ forall x, In x (map fst (countWord o t)) -> In x (map fst o) \/ x = t).
  { unfold countWord, JSObject.set.
    destruct (JSString.eqb t (str "__proto__")); [tauto|].
    split; [now apply update_keys_NoDup|].
    intros x Hx. now apply update_keys_In in Hx. }
  destruct Hstep as [Hnd Hin].
  destruct (IH _ Hnd) as [IHnd IHin].
  split; [assumption|].
  intros x Hx. destruct (IHin x Hx) as [H|H]; [|tauto].
  destruct (Hin x H) as [H'| ->]; tauto.
Qed.

Lemma insertIndex_perm e l : Permutation (insertIndex e l) (e :: l).
Proof.
  induction l as [|e' l IH]; simpl; [reflexivity|].
  destruct (_ <=? _)%N; [reflexivity|].
  rewrite IH. apply perm_swap.
Qed.

Lemma partition_perm (A : Type) (f : A -> bool) l :
  Permutation (filter f l ++ filter (fun x => negb (f x)) l) l.
Proof.
  induction l as [|x l IH]; simpl; [reflexivity|].
  destruct (f x); simpl.
  - now constructor.
  - symmetry. apply Permutation_cons_app. now symmetry.
Qed.

(** [Object.entries] lists every own property once. *)
Lemma entries_perm o : Permutation (entries o) o.
Proof.
  unfold entries.
  rewrite <- (partition_perm _ (fun e => isArrayIndex (fst e)) o) at 3.
  apply Permutation_app_tail.
  induction (filter (fun e => isArrayIndex (fst e)) o) as [|e l IH]; simpl;
    [reflexivity|].
  rewrite insertIndex_perm. now constructor.
Qed.

(** The sort moves elements and loses none, whatever the comparison
    function answers. *)
Lemma sort_perm_any (A : Type) (comparefn : A -> A -> option Z) l :
  Permutation (JSObject.sort comparefn l) l.
Proof.
  unfold JSObject.sort. induction l as [|a l IH]; simpl; [reflexivity|].
  transitivity (a :: fold_right (JSObject.insert comparefn) [] l); [|now constructor].
  generalize (fold_right (JSObject.insert comparefn) [] l). clear.
  intros l. induction l as [|b l IH]; simpl; [reflexivity|].
  destruct (goesAfter comparefn a b); [|reflexivity].
  rewrite IH. apply perm_swap.
Qed.

Lemma firstn_NoDup (A : Type) n (l : list A) : NoDup l -> NoDup (firstn n l).
Proof.
  intros H. rewrite <- (firstn_skipn n l) in H. now apply NoDup_app_remove_r in H.
Qed.

Lemma firstn_incl (A : Type) n (l : list A) x : In x (firstn n l) -> In x l.
Proof.
  intros H. rewrite <- (firstn_skipn n l). apply in_or_app. now left.
Qed.

Lemma splitRuns_chars p s w c : In w (splitRuns p s) -> In c w -> In c s.
Proof.
  revert w. induction s as [|x s IH]; intros w Hw Hc.
  - simpl in Hw. destruct Hw as [<-|[]]. destruct Hc.
  - simpl in Hw. destruct (p x).
    + destruct s as [|y s'].
      * destruct Hw as [<-|[<-|[]]]; destruct Hc.
      * right. destruct (p y).
        -- now apply (IH w).
        -- destruct Hw as [<-|Hw]; [destruct Hc | now apply (IH w)].
    + destruct (splitRuns p s) as [|w0 ws].
      * destruct Hw as [<-|[]]. destruct Hc as [<-|[]]. now left.
      * destruct Hw as [<-|Hw].
        -- destruct Hc as [<-|Hc]; [now left | right].
           apply (IH w0); [now left | assumption].
        -- right. apply (IH w); [now right | assumption].
Qed.

Lemma lowered_wordChar c :
  isWordChar (lowerChar c) = true -> isKeyChar (lowerChar c) = true.
Proof.
  destruct c as [[] [] [] [] [] [] [] []]; vm_compute; congruence.
Qed.

Lemma keywordTokens_chars text t :
  In t (keywordTokens text) -> forallb isKeyChar t = true.
Proof.
  unfold keywordTokens. intros H. apply filter_In in H as [H _].
  apply in_map_iff in H as (w & <- & Hw).
  apply forallb_forall. intros c Hc. apply filter_In in Hc as [Hc Hword].
  pose proof (splitRuns_chars _ _ _ _ Hw Hc) as Hin.
  unfold toLowerCase in Hin. apply in_map_iff in Hin as (c0 & <- & _).
  now apply lowered_wordChar.
Qed.

(** X14: on every text, [extractKeyPoints] returns at most five words,
    no word twice; each is one of the cleaned tokens of the text, has
    more than 4 characters, is not a stop word, and is made of lowercase
    letters, digits and underscores only. *)
Theorem extractKeyPoints_safe :
  forall text,
    length (extractKeyPoints text) <= 5
    /\ NoDup (extractKeyPoints text)
    /\ forall t, In t (extractKeyPoints text) ->
                 In t (keywordTokens text)
                 /\ 4 < length t
                 /\ has stopWords t = false
                 /\ forallb isKeyChar t = true.
Proof.
  intros text. unfold extractKeyPoints. rewrite wordFreq_fold.
  fold (keywordTokens text).
  set (o := fold_left countWord (keywordTokens text) []).
  destruct (countWord_keys (keywordTokens text) [] (NoDup_nil _)) as [Hnd Hin].
  fold o in Hnd, Hin.
  set (sorted := JSObject.sort (fun a b => minus (snd b) (snd a)) (entries o)).
  assert (P : Permutation (map fst sorted) (map fst o)).
  { apply Permutation_map. unfold sorted.
    rewrite sort_perm_any. apply entries_perm. }
  rewrite <- firstn_map.
  split; [rewrite length_firstn; lia|].
  split.
  - apply firstn_NoDup. apply (Permutation_NoDup (Permutation_sym P) Hnd).
  - intros t Ht. apply firstn_incl in Ht.
    apply (Permutation_in _ P) in Ht.
    destruct (Hin t Ht) as [[]|Htok].
    split; [exact Htok|].
    destruct (keywordTokens_filtered text t Htok) as [Hlen Hstop].
    split; [exact Hlen|]. split; [exact Hstop|].
    now apply (keywordTokens_chars text).
Qed.

(** ** The word count of a transcript *)

Section EmptyPieces.
Variable p : ascii -> bool.

Lemma splitRuns_not_nil s : splitRuns p s <> [].
Proof.
  induction s as [|c s IH]; simpl; [discriminate|].
  destruct (p c).
  - destruct s as [|y s]; [discriminate|]. destruct (p y); [exact IH | discriminate].
  - destruct (splitRuns p s); discriminate.
Qed.

Lemma splitRuns_free_head c s :
  p c = false ->
  exists w, splitRuns p (c :: s) = (c :: w) :: tl (splitRuns p s).
Proof.
  intros Hc. simpl. rewrite Hc.
  destruct (splitRuns p s) as [|w ws] eqn:E.
  - exfalso. now apply (splitRuns_not_nil s).
  - now exists w.
Qed.

Lemma endsWith_cons c s : endsWith p s -> endsWith p (c :: s).
Proof.
  intros (s' & x & -> & Hx). now exists (c :: s'), x.
Qed.

(** An empty piece after the first one means that the text ends with a
    separator. *)
Lemma empty_piece_at_end s : In [] (tl (splitRuns p s)) -> endsWith p s.
Proof.
  induction s as [|c s IH]; [simpl; tauto|].
  destruct (p c) eqn:Hc.
  - destruct s as [|y s].
    + intros _. now exists [], c.
    + destruct (p y) eqn:Hy.
      * rewrite (splitRuns_sep_sep p c y s Hc Hy). intros H.
        now apply endsWith_cons, IH.
      * rewrite (splitRuns_sep_free p c (y :: s) Hc Hy).
        change (tl ([] :: splitRuns p (y :: s))) with (splitRuns p (y :: s)).
        destruct (splitRuns_free_head y s Hy) as [w Ew].
        intros H. apply endsWith_cons, IH.
        rewrite Ew in H. rewrite Ew.
        destruct H as [H|H]; [discriminate | exact H].
  - destruct (splitRuns_free_head c s Hc) as [w Ew]. rewrite Ew.
    change (tl ((c :: w) :: tl (splitRuns p s))) with (tl (splitRuns p s)).
    intros H. now apply endsWith_cons, IH.
Qed.

(** A non-empty text without separator at either end splits into
    non-empty pieces. *)
Lemma pieces_nonEmpty s :
  s <> [] -> startsFree p s -> startsFree p (rev s) ->
  forall w, In w (splitRuns p s) -> w <> [].
Proof.
  intros Hne Hs He w Hw ->.
  destruct s as [|c s]; [contradiction|]. simpl in Hs.
  destruct (splitRuns_free_head c s Hs) as [w Ew]. rewrite Ew in Hw.
  destruct Hw as [Hw|Hw]; [discriminate|].
  apply empty_piece_at_end in Hw. apply (endsWith_cons c) in Hw.
  destruct Hw as (s' & x & E & Hx).
  rewrite E, rev_app_distr in He. simpl in He. congruence.
Qed.
End EmptyPieces.

(** X15: the word count of a summary made from a parsed transcript
    counts words only: the transcript has no whitespace at its ends, so
    none of the tokens that [split(/\s+/)] gives is empty. *)
Theorem wordCount_of_transcript :
  forall textElements xml r,
    generateSummary (parseYouTubeTranscriptXML textElements xml) = Return r ->
    wordCount r = length (splitRuns isSpace (parseYouTubeTranscriptXML textElements xml))
    /\ forall token,
        In token (splitRuns isSpace (parseYouTubeTranscriptXML textElements xml)) ->
        token <> [].
Proof.
  intros textElements xml r H.
  set (t := parseYouTubeTranscriptXML textElements xml) in *.
  assert (Hlen : 50 <= length t).
  { destruct (Nat.le_gt_cases 50 (length t)) as [L|L]; [exact L|].
    exfalso. unfold generateSummary in H.
    destruct t as [|c t']; [discriminate|].
    destruct (Nat.ltb_spec (length (c :: t')) 50); [discriminate | lia]. }
  rewrite generateSummary_long in H by exact Hlen.
  injection H as <-. split; [reflexivity|].
  assert (Hedge : edgeFree t).
  { unfold t. rewrite transcript_closed_form. apply edgeFree_join, kept_texts. }
  destruct Hedge as [Hs He].
  apply pieces_nonEmpty; [|exact Hs | exact He].
  intros E. rewrite E in Hlen. simpl in Hlen. lia.
Qed.

Lemma wordCount_of_transcript_witness :
  exists r,
    generateSummary (parseYouTubeTranscriptXML sampleTextElements lyricsXml) = Return r
    /\ wordCount r = 14.
Proof.
  destruct (generateSummary (parseYouTubeTranscriptXML sampleTextElements lyricsXml))
    as [r|e] eqn:E; [|vm_compute in E; discriminate].
  exists r. split; [reflexivity|].
  destruct (wordCount_of_transcript sampleTextElements lyricsXml r E) as [H _].
  rewrite H. reflexivity.
Defined.

(** ** The click handler *)

Lemma dropWhile_all p s : forallb p s = true -> dropWhile p s = [].
Proof.
  induction s as [|c s IH]; simpl; [reflexivity|].
  intros H. apply andb_true_iff in H as [Hc Hs]. now rewrite Hc, IH.
Qed.

Lemma trim_blank s : forallb isSpace s = true -> trim s = [].
Proof.
  intros H. unfold trim, trimEnd, trimStart. now rewrite (dropWhile_all _ _ H).
Qed.

(** X16: a click with an input of whitespace only (or empty) does not
    start the pipeline: nothing is requested, the button and the loading
    indicator are untouched, and the page shows 'Please enter a URL';
    results shown by an earlier run stay on the page. *)
Theorem click_on_blank_input :
  forall network textElements parseJSON value b w,
    forallb isSpace value = true ->
    let result := onClick network textElements parseJSON value b w in
    fst result = Return tt
    /\ fst (snd result) = b
    /\ requests (snd (snd result)) = requests w
    /\ errorMessage_text (page (snd (snd result))) = "Please enter a URL"%string
    /\ errorMessage_display (page (snd (snd result))) = "block"%string
    /\ resultsSection_display (page (snd (snd result))) = resultsSection_display (page w)
    /\ displayed (page (snd (snd result))) = displayed (page w)
    /\ loadingSection_display (page (snd (snd result))) = loadingSection_display (page w).
Proof.
  intros network textElements parseJSON value b w H result. unfold result, onClick.
  rewrite (trim_blank _ H). repeat split.
Qed.

Lemma click_on_blank_input_witness :
  let result := onClick offline sampleTextElements noJSON (str "   ")
                        (mkButton false "inline" "none") freshWorld in
  requests (snd (snd result)) = []
  /\ errorMessage_text (page (snd (snd result))) = "Please enter a URL"%string.
Proof.
  intros result.
  destruct (click_on_blank_input offline sampleTextElements noJSON (str "   ")
              (mkButton false "inline" "none") freshWorld)
    as (_ & _ & Hreq & Htext & _).
  - reflexivity.
  - fold result in Hreq, Htext. split; [exact Hreq | exact Htext].
Defined.



(** ** The price ticker *)

Section TickerFacts.
Import Ticker.
Variable Price : Type.
Variable exchange : list jsstring -> jsstring -> ApiResult.
Variable parseJSON : jsstring -> option JSON.
Variable parseFloat : JSField -> Price.
Variable isZero : jsstring -> bool.
Variable toLocaleString2 : Price -> string.
Variable toFixed2 : Price -> string.
Variable geZero : Price -> bool.
Variable clock : list jsstring -> string.
Variable syntaxError : jsstring -> JSError.
Variable nullError : jsstring -> JSError.

Local Notation "'tick'" :=
  (fetchBitcoinPrice exchange parseJSON parseFloat isZero toLocaleString2 toFixed2
                     geZero clock syntaxError nullError).
Local Notation "'quoteAt'" :=
  (quote exchange parseJSON parseFloat isZero syntaxError nullError).
Local Notation "'ticks'" :=
  (poll exchange parseJSON parseFloat isZero toLocaleString2 toFixed2
        geZero clock syntaxError nullError).
Local Notation "'samplesOf'" :=
  (samples exchange parseJSON parseFloat isZero toLocaleString2 toFixed2
           geZero clock syntaxError nullError).

Lemma quote_noPrice history :
  noPrice parseJSON isZero nullError (exchange history binanceUrl) ->
  exists e, quoteAt history = Throw e.
Proof.
  unfold noPrice, quote.
  destruct (exchange history binanceUrl) as [e|r]; [now exists e|].
  destruct (ok (response r)); simpl negb; cbv iota.
  2:{ intros _. eexists. reflexivity. }
  intros [H|[[e H]|(s & Hs & H)]]; [discriminate| |].
  - rewrite H. now exists e.
  - rewrite Hs. destruct H as [H|[H|(data & v & H & Hv & Hf)]]; rewrite H.
    + eexists. reflexivity.
    + simpl. eexists. reflexivity.
    + rewrite Hv, Hf. eexists. reflexivity.
Qed.

Lemma quote_price history r s fields :
  exchange history binanceUrl = ApiResponded r ->
  ok (response r) = true ->
  body (response r) = Return s ->
  parseJSON s = Some (JObj fields) ->
  truthy isZero (lookupField (str "lastPrice") fields) = true ->
  quoteAt history
  = Return (parseFloat (lookupField (str "lastPrice") fields),
            parseFloat (lookupField (str "priceChangePercent") fields)).
Proof.
  intros H Hok Hb Hp Ht. unfold quote, property. rewrite H, Hok, Hb, Hp.
  simpl negb. cbv iota. now rewrite Ht.
Qed.

(** The message that the [catch] block shows is never empty. *)
Lemma tick_error t e :
  quoteAt (sent t) = Throw e ->
  tick t
  = showError e (mkState (sent t ++ [binanceUrl]) (logged t) (shown t) (chart t)).
Proof. intros H. unfold fetchBitcoinPrice. now rewrite H. Qed.

Lemma tick_colour t :
  currentPrice_color (shown (tick t)) = "#f44336"%string
  \/ currentPrice_color (shown (tick t)) = currentPrice_color (shown t).
Proof.
  unfold fetchBitcoinPrice.
  destruct (quoteAt (sent t)) as [[price change]|e]; simpl; tauto.
Qed.

Lemma ticks_keep_red n t :
  currentPrice_color (shown t) = "#f44336"%string ->
  currentPrice_color (shown (ticks n t)) = "#f44336"%string.
Proof.
  revert t. induction n as [|n IH]; intros t H; simpl; [exact H|].
  apply IH. destruct (tick_colour t) as [E|E]; congruence.
Qed.

Lemma ticks_chart n t :
  chart (ticks n t) = feed (chart t) (samplesOf n t).
Proof.
  revert t. induction n as [|n IH]; intros t; simpl; [reflexivity|].
  rewrite IH.
  assert (C : chart (tick t)
              = match quoteAt (sent t) with
                | Return (price, _) =>
                    updateChart (chart t) (price, clock (sent t ++ [binanceUrl]))
                | Throw _ => chart t
                end).
  { unfold fetchBitcoinPrice.
    destruct (quoteAt (sent t)) as [[price change]|e]; reflexivity. }
  rewrite C.
  destruct (quoteAt (sent t)) as [[price change]|e]; reflexivity.
Qed.

Lemma samples_length n t : length (samplesOf n t) <= n.
Proof.
  revert t. induction n as [|n IH]; intros t; simpl; [lia|].
  destruct (quoteAt (sent t)) as [[price change]|e]; simpl;
    specialize (IH (tick t)); lia.
Qed.

(** X18: a run of [fetchBitcoinPrice] in which the exchange gives no
    price (request rejected, response not ok, body unreadable or not
    JSON, [null], [lastPrice] missing or falsy) leaves the chart and the
    24h change as they were, and shows a non-empty error message in red
    in place of the price. *)
Theorem tick_without_price :
  forall t,
    noPrice parseJSON isZero nullError (exchange (sent t) binanceUrl) ->
    chart (tick t) = chart t
    /\ sent (tick t) = sent t ++ [binanceUrl]
    /\ priceChange_text (shown (tick t)) = priceChange_text (shown t)
    /\ priceChange_class (shown (tick t)) = priceChange_class (shown t)
    /\ currentPrice_color (shown (tick t)) = "#f44336"%string
    /\ exists msg,
        msg <> EmptyString
        /\ currentPrice_text (shown (tick t)) = ("Error: " ++ msg)%string.
Proof.
  intros t H. destruct (quote_noPrice _ H) as [e He].
  rewrite (tick_error _ _ He). unfold showError. simpl.
  repeat split.
  destruct (message e) as [|c m].
  - exists "Network error"%string. split; [discriminate | reflexivity].
  - exists (String c m). split; [discriminate | reflexivity].
Qed.

(** X19: the messages of a failed run.  A response that is not ok shows
    'Error: API error: ' with the status and the status text; a JSON
    object without a truthy [lastPrice] shows 'Error: Invalid data format
    from API'; a rejection whose error has an empty message shows 'Error:
    Network error'. *)
Theorem tick_error_messages :
  forall t,
    (forall r, exchange (sent t) binanceUrl = ApiResponded r ->
               ok (response r) = false ->
               currentPrice_text (shown (tick t))
               = ("Error: API error: " ++ status r ++ " " ++ statusText r)%string)
    /\ (forall r s fields,
           exchange (sent t) binanceUrl = ApiResponded r ->
           ok (response r) = true ->
           body (response r) = Return s ->
           parseJSON s = Some (JObj fields) ->
           truthy isZero (lookupField (str "lastPrice") fields) = false ->
           currentPrice_text (shown (tick t))
           = "Error: Invalid data format from API"%string)
    /\ (forall e, exchange (sent t) binanceUrl = ApiRejected e ->
                  message e = EmptyString ->
                  currentPrice_text (shown (tick t)) = "Error: Network error"%string).
Proof.
  intros t. split; [|split].
  - intros r H Hok.
    rewrite (tick_error t (mkError ("API error: " ++ status r ++ " " ++ statusText r)%string)).
    + reflexivity.
    + unfold quote. now rewrite H, Hok.
  - intros r s fields H Hok Hb Hp Hf.
    rewrite (tick_error t (mkError "Invalid data format from API")).
    + reflexivity.
    + unfold quote, property. rewrite H, Hok, Hb, Hp.
      simpl negb. cbv iota. now rewrite Hf.
  - intros e H Hm.
    rewrite (tick_error t e).
    + unfold showError. simpl. now rewrite Hm.
    + unfold quote. now rewrite H.
Qed.

(** X20: a run in which the exchange answers ok with a JSON object
    whose [lastPrice] is truthy appends one sample to the chart through
    [updateChart], shows the formatted price and the signed change, and
    logs nothing; it leaves the colour of the price as it was. *)
Theorem tick_with_price :
  forall t r s fields,
    exchange (sent t) binanceUrl = ApiResponded r ->
    ok (response r) = true ->
    body (response r) = Return s ->
    parseJSON s = Some (JObj fields) ->
    truthy isZero (lookupField (str "lastPrice") fields) = true ->
    let price := parseFloat (lookupField (str "lastPrice") fields) in
    let change := parseFloat (lookupField (str "priceChangePercent") fields) in
    chart (tick t) = updateChart (chart t) (price, clock (sent t ++ [binanceUrl]))
    /\ currentPrice_text (shown (tick t)) = ("$" ++ toLocaleString2 price)%string
    /\ priceChange_text (shown (tick t))
       = ((if geZero change then "+" else EmptyString) ++ toFixed2 change ++ "% (24h)")%string
    /\ priceChange_class (shown (tick t))
       = (if geZero change then "price-change positive" else "price-change negative")%string
    /\ currentPrice_color (shown (tick t)) = currentPrice_color (shown t)
    /\ logged (tick t) = logged t.
Proof.
  intros t r s fields H Hok Hb Hp Ht price change.
  unfold fetchBitcoinPrice.
  rewrite (quote_price _ _ _ _ H Hok Hb Hp Ht). simpl.
  repeat split. unfold change. now destruct (geZero _).
Qed.

(** X21: after any number of runs from page load, the chart holds the
    last 50 of the samples that the successful runs produced, in order;
    its two arrays have the same length, at most 50 and at most the
    number of runs.  Failed runs leave no gap and no entry. *)
Theorem poll_chart_window :
  forall n p,
    let t := ticks n (loaded Price p) in
    let added := samplesOf n (loaded Price p) in
    priceHistory (chart t) = lastN 50 (map fst added)
    /\ timeLabels (chart t) = lastN 50 (map snd added)
    /\ length (priceHistory (chart t)) = length (timeLabels (chart t))
    /\ length (priceHistory (chart t)) <= Nat.min 50 n.
Proof.
  intros n p t added.
  assert (E : chart t = feed (initial Price) added).
  { unfold t, added. now rewrite ticks_chart. }
  destruct (feed_window added) as [Hp Hl].
  rewrite E. change maxDataPoints with 50 in Hp, Hl.
  split; [exact Hp|]. split; [exact Hl|].
  rewrite Hp, Hl. rewrite !lastN_length, !length_map.
  split; [reflexivity|].
  pose proof (samples_length n (loaded Price p)) as L. fold added in L. lia.
Qed.

(** X22: the colour of the price is set to red by a failed run and is
    never set back: after a run without price, the price element is red
    after every later run, the successful ones included. *)
Theorem error_colour_sticks :
  forall t n,
    noPrice parseJSON isZero nullError (exchange (sent t) binanceUrl) ->
    currentPrice_color (shown (ticks n (tick t))) = "#f44336"%string.
Proof.
  intros t n H. apply ticks_keep_red.
  destruct (quote_noPrice _ H) as [e He].
  now rewrite (tick_error _ _ He).
Qed.
End TickerFacts.

Section TickerWitnesses.
Import Ticker TickerSample.

Local Notation "'run' exchange" :=
  (fetchBitcoinPrice exchange tickerJSON parseFloat notZero sameText sameText geZero
                     noon unexpectedToken readOfNull)
  (at level 10, exchange at level 9).
Local Notation "'runs' exchange" :=
  (poll exchange tickerJSON parseFloat notZero sameText sameText geZero
        noon unexpectedToken readOfNull)
  (at level 10, exchange at level 9).

Lemma tick_without_price_witness :
  let t := run down (loaded string startPage) in
  priceHistory (chart t) = []
  /\ currentPrice_color (shown t) = "#f44336"%string.
Proof.
  intros t.
  destruct (tick_without_price string down tickerJSON parseFloat notZero sameText sameText
              geZero noon unexpectedToken readOfNull (loaded string startPage))
    as (Hchart & _ & _ & _ & Hcolour & _).
  - left. reflexivity.
  - fold t in Hchart, Hcolour. split; [|exact Hcolour].
    rewrite Hchart. reflexivity.
Defined.

Lemma tick_error_messages_witness :
  currentPrice_text (shown (run down (loaded string startPage)))
  = "Error: API error: 503 Service Unavailable"%string.
Proof.
  destruct (tick_error_messages string down tickerJSON parseFloat notZero sameText sameText
              geZero noon unexpectedToken readOfNull (loaded string startPage))
    as (H & _ & _).
  rewrite (H (mkApiResponse (mkResponse false (Return [])) "503" "Service Unavailable"));
    reflexivity.
Defined.

Lemma tick_with_price_witness :
  let t := run up (loaded string startPage) in
  priceHistory (chart t) = ["43000.10"%string]
  /\ timeLabels (chart t) = ["12:00:00 PM"%string]
  /\ currentPrice_text (shown t) = "$43000.10"%string
  /\ priceChange_text (shown t) = "-1.25% (24h)"%string
  /\ priceChange_class (shown t) = "price-change negative"%string.
Proof.
  intros t.
  destruct (tick_with_price string up tickerJSON parseFloat notZero sameText sameText
              geZero noon unexpectedToken readOfNull (loaded string startPage)
              (mkApiResponse (mkResponse true (Return tickerBody)) "200" "OK")
              tickerBody
              [(str "lastPrice", JStr (str "43000.10"));
               (str "priceChangePercent", JStr (str "-1.25"))])
    as (Hchart & Htext & Hchange & Hclass & _); try reflexivity.
  fold t in Hchart, Htext, Hchange, Hclass.
  rewrite Hchart, Htext, Hchange, Hclass. repeat split.
Defined.

Lemma error_colour_sticks_witness :
  let t := runs flaky 3 (loaded string startPage) in
  currentPrice_text (shown t) = "$43000.10"%string
  /\ currentPrice_color (shown t) = "#f44336"%string
  /\ length (priceHistory (chart t)) = 2.
Proof.
  intros t. split; [reflexivity|]. split; [|reflexivity].
  apply (error_colour_sticks string flaky tickerJSON parseFloat notZero sameText sameText
           geZero noon unexpectedToken readOfNull (loaded string startPage) 2).
  exact I.
Defined.
End TickerWitnesses.

(** ** The extractor on any text *)

Lemma idPattern1_marker url g :
  search idPattern1 url = Some g ->
  hasIdAfter (str "?v=") url \/ hasIdAfter (str "&v=") url.
Proof.
  intros H. apply search_inv in H as (pre & suf & -> & H).
  unfold idPattern1, cls in H.
  destruct suf as [|c suf]; [discriminate|].
  destruct (Ascii.eqb c "?" || Ascii.eqb c "&") eqn:E; [|discriminate].
  apply lit_inv in H as (r & -> & H).
  apply orb_true_iff in E as [E|E]; apply Ascii.eqb_eq in E; subst c.
  - left. now exists pre, r, g.
  - right. now exists pre, r, g.
Qed.

Lemma marker_idPattern1 url :
  hasIdAfter (str "?v=") url \/ hasIdAfter (str "&v=") url ->
  exists g, search idPattern1 url = Some g.
Proof.
  intros [(pre & rest & g & -> & Hg)|(pre & rest & g & -> & Hg)];
    apply search_suffix with (x := g); exact Hg.
Qed.

Lemma lit_marker marker url g :
  search (lit marker (group isIdChar 11)) url = Some g -> hasIdAfter marker url.
Proof.
  intros H. apply search_inv in H as (pre & suf & -> & H).
  apply lit_inv in H as (r & -> & H). now exists pre, r, g.
Qed.

(** X23: [extractYouTubeVideoId] returns [null] exactly when the text
    contains none of [?v=], [&v=], [youtu.be/] and [embed/] followed by
    11 id characters; what it returns otherwise is always 11 id
    characters.  The host is not looked at. *)
Theorem extractYouTubeVideoId_null_iff :
  forall url,
    (extractYouTubeVideoId url = None
     <-> ~ (hasIdAfter (str "?v=") url \/ hasIdAfter (str "&v=") url
            \/ hasIdAfter (str "youtu.be/") url \/ hasIdAfter (str "embed/") url))
    /\ (forall id, extractYouTubeVideoId url = Some id ->
                   length id = 11 /\ forallb isIdChar id = true).
Proof.
  intros url. split; [|intros id H; now apply (extract_some_id url)].
  unfold extractYouTubeVideoId, firstMatch. split.
  - intros H [M|[M|[M|M]]].
    + destruct (marker_idPattern1 url (or_introl M)) as [g Hg].
      rewrite Hg in H. discriminate.
    + destruct (marker_idPattern1 url (or_intror M)) as [g Hg].
      rewrite Hg in H. discriminate.
    + destruct (search idPattern1 url); [discriminate|].
      apply marker_found in M as [g Hg]. unfold idPattern2 in H.
      rewrite Hg in H. discriminate.
    + destruct (search idPattern1 url); [discriminate|].
      destruct (search idPattern2 url); [discriminate|].
      apply marker_found in M as [g Hg]. unfold idPattern3 in H.
      rewrite Hg in H. discriminate.
  - intros H.
    destruct (search idPattern1 url) as [g|] eqn:E1.
    { exfalso. apply H. destruct (idPattern1_marker url g E1); tauto. }
    destruct (search idPattern2 url) as [g|] eqn:E2.
    { exfalso. apply H. right. right. left. now apply (lit_marker _ url g). }
    destruct (search idPattern3 url) as [g|] eqn:E3.
    { exfalso. apply H. right. right. right. now apply (lit_marker _ url g). }
    reflexivity.
Qed.

(** X24: whatever stands before the first [?] or [&] of a text, when
    that character starts [?v=] or [&v=] followed by 11 id characters the
    extractor returns these 11 characters, cutting off whatever follows
    them: a longer id is truncated and the host is not checked. *)
Theorem extractYouTubeVideoId_first_query :
  forall pre mark id rest,
    forallb (fun c => negb (Ascii.eqb c "?" || Ascii.eqb c "&")) pre = true ->
    In mark [str "?v="; str "&v="] ->
    length id = 11 ->
    forallb isIdChar id = true ->
    extractYouTubeVideoId (pre ++ mark ++ id ++ rest) = Some id.
Proof.
  intros pre mark id rest Hpre Hmark Hlen Hchars.
  unfold extractYouTubeVideoId, firstMatch.
  unfold idPattern1 at 1. rewrite search_skip_cls by exact Hpre.
  assert (G : group isIdChar 11 (id ++ rest) = Some id).
  { rewrite <- Hlen. now apply group_app. }
  erewrite search_hit; [reflexivity|].
  simpl in Hmark. destruct Hmark as [<-|[<-|[]]]; exact G.
Qed.

Lemma extractYouTubeVideoId_first_query_witness :
  extractYouTubeVideoId (str "https://example.com/play?v=dQw4w9WgXcQ0123")
  = Some (str "dQw4w9WgXcQ").
Proof.
  apply (extractYouTubeVideoId_first_query (str "https://example.com/play")
           (str "?v=") (str "dQw4w9WgXcQ") (str "0123")).
  - reflexivity.
  - simpl. auto.
  - reflexivity.
  - reflexivity.
Defined.

(** ** The summary of a short text *)

(** X25: a text of at least 50 characters with one to five sentences is
    summarised by its first sentence alone, followed by a period; the
    other sentences are left out. *)
Theorem summary_of_few_sentences :
  forall text first others,
    50 <= length text ->
    sentencesOf text = first :: others ->
    length others <= 4 ->
    exists r, generateSummary text = Return r /\ summary r = first ++ str ".".
Proof.
  intros text first others Hlen Hs Hn.
  eexists. split; [now apply generateSummary_long|].
  simpl. rewrite summaryLength_exact, Hs. simpl length.
  assert (E : Nat.min 5 ((S (length others) + 4) / 5) = 1).
  { assert (D : (S (length others) + 4) / 5 = 1).
    { symmetry. apply Nat.div_unique with (r := length others); lia. }
    rewrite D. reflexivity. }
  rewrite E. reflexivity.
Qed.

Lemma summary_of_few_sentences_witness :
  exists r,
    generateSummary
      (str "This is the first sentence of the text. And here comes the second sentence! Short? Third sentence is long enough too.")
    = Return r
    /\ summary r = str "This is the first sentence of the text.".
Proof.
  apply (summary_of_few_sentences
           (str "This is the first sentence of the text. And here comes the second sentence! Short? Third sentence is long enough too.")
           (str "This is the first sentence of the text")
           [str " And here comes the second sentence";
            str " Third sentence is long enough too"]).
  - simpl. lia.
  - reflexivity.
  - simpl. lia.
Defined.

(** ** Key points of a text with plain keys *)

(** X26: when no keyword token of the text is an array index or a name
    that an object inherits, [extractKeyPoints] returns the distinct
    keyword tokens in a stable sort by descending frequency, cut at
    five: each key point ranks above the ones after it and above every
    keyword token left out, where ranking is by frequency and then by
    first occurrence. *)
Theorem key_points_of_plain_text :
  forall text,
    (forall t, In t (keywordTokens text) -> plainKey t = true) ->
    let tokens := keywordTokens text in
    extractKeyPoints text = firstn 5 (byFrequency tokens)
    /\ length (extractKeyPoints text) = Nat.min 5 (length (distinct tokens))
    /\ StronglySorted (ranksAbove tokens) (extractKeyPoints text)
    /\ (forall t u, In t (extractKeyPoints text) -> In u tokens ->
                    ~ In u (extractKeyPoints text) -> ranksAbove tokens t u).
Proof.
  intros text Hplain tokens.
  pose proof (extractKeyPoints_plain text Hplain) as E.
  destruct (topKeywords_best text) as (Hlen & _ & _ & Hsorted & Hbest).
  rewrite E. fold tokens in Hlen, Hsorted, Hbest.
  split; [reflexivity|]. split; [exact Hlen|]. split; [exact Hsorted | exact Hbest].
Qed.

Lemma key_points_of_plain_text_witness :
  extractKeyPoints
    (str "Hello, world! The WORLD is great; great great-ness about ABOUT aBout")
  = map str ["about"; "world"; "great"; "hello"; "greatness"]%string.
Proof.
  destruct (key_points_of_plain_text
              (str "Hello, world! The WORLD is great; great great-ness about ABOUT aBout"))
    as (E & _).
  - intros t Ht. vm_compute in Ht.
    repeat (destruct Ht as [<-|Ht]; [reflexivity|]). destruct Ht.
  - rewrite E. reflexivity.
Defined.

(** ** The tip on the console *)




Section TipFacts.
Import Ticker.
Variable Price : Type.
Variable exchange : list jsstring -> jsstring -> ApiResult.
Variable parseJSON : jsstring -> option JSON.
Variable parseFloat : JSField -> Price.
Variable isZero : jsstring -> bool.
Variable toLocaleString2 : Price -> string.
Variable toFixed2 : Price -> string.
Variable geZero : Price -> bool.
Variable clock : list jsstring -> string.
Variable syntaxError : jsstring -> JSError.
Variable nullError : jsstring -> JSError.

End TipFacts.

